(** * Last.fm chart collage backend: a shallow embedding of [app/main.py]

    The development follows the source file function by function:
    [lastfm_chart], [create_chart], [charts], [gen_track_chart], [chunks],
    [create_graph], [scrape_artists_for_chart], [fetch], [get_img] and
    [format_plays].  Python integers are [Z]; [str] is [string] (one
    character per element, so [len] is [String.length]); [bytes] is a list of
    bytes; the request-scoped dictionary [chart_data] is a [gmap].  Raised
    exceptions are values of [exn]; code that awaits the network runs in a
    state-and-error monad over the trace of requests issued so far. *)

From Stdlib Require Import ZArith String Ascii DecimalString.
From stdpp Require Import gmap strings list.

Open Scope Z_scope.

(** ** Python values and built-ins used by the program *)

Module Py.

(** The exceptions the program can raise or let through. *)
Inductive exn :=
| HTTPException (status_code : Z) (detail : string)
| KeyError (key : string)
| IndexError
| TypeError
| ValueError
| UnboundLocalError (var : string)
| ClientError                (* aiohttp: the request got no response *)
| JSONDecodeError
| UnidentifiedImageError.    (* PIL: the bytes are not an image *)

Inductive result (A : Type) :=
| Ok (a : A)
| Raise (e : exn).
Arguments Ok {A} a.
Arguments Raise {A} e.

(** Sequencing, for pure code that may raise and for awaiting code. *)
Class Ret (F : Type → Type) := ret : ∀ {A}, A → F A.
Class Bind (F : Type → Type) := bind : ∀ {A B}, F A → (A → F B) → F B.

#[global] Instance result_ret : Ret result := λ A a, Ok a.
#[global] Instance result_bind : Bind result := λ A B r f,
  match r with
  | Ok a => f a
  | Raise e => Raise e
  end.

(** [for x in l: ys.append(f(x))], stopping at the first exception. *)
Fixpoint for_each {A B} (f : A → result B) (l : list A) : result (list B) :=
  match l with
  | [] => Ok []
  | x :: l' =>
      match f x with
      | Ok y =>
          match for_each f l' with
          | Ok ys => Ok (y :: ys)
          | Raise e => Raise e
          end
      | Raise e => Raise e
      end
  end.

Definition bytes := list Byte.byte.

(** A number as the provider's JSON carries it: the play count arrives
    either as a JSON string or as a JSON number. *)
Inductive pyval :=
| VStr (s : string)
| VInt (z : Z).

(** [str(v)], as an f-string renders it. *)
Definition str (v : pyval) : string :=
  match v with
  | VStr s => s
  | VInt z => NilZero.string_of_int (Z.to_int z)
  end.

Definition nl : ascii := "010"%char.
Definition newline : string := String nl EmptyString.

Definition len (s : string) : Z := Z.of_nat (String.length s).

(** [s[:n]] and [s[n:]] for a literal [n >= 0]. *)
Fixpoint str_to (n : nat) (s : string) : string :=
  match n, s with
  | S n', String c s' => String c (str_to n' s')
  | _, _ => EmptyString
  end.

Fixpoint str_from (n : nat) (s : string) : string :=
  match n, s with
  | S n', String _ s' => str_from n' s'
  | _, _ => s
  end.

(** [s.split("\n")]: never empty; a string without a newline is returned
    whole as the only element. *)
Fixpoint split_nl (s : string) : list string :=
  match s with
  | EmptyString => [EmptyString]
  | String c s' =>
      if Ascii.eqb c nl then EmptyString :: split_nl s'
      else match split_nl s' with
           | line :: lines => String c line :: lines
           | [] => [String c EmptyString]
           end
  end.

(** [s.replace(old, new)] for a non-empty [old]: occurrences are found
    left to right and do not overlap.  [skip] counts the characters of
    the occurrence being replaced that are still to be dropped. *)
Fixpoint replace_from (old new : string) (skip : nat) (s : string) : string :=
  match s with
  | EmptyString => EmptyString
  | String c s' =>
      match skip with
      | S k => replace_from old new k s'
      | O =>
          if String.prefix old s
          then new +:+ replace_from old new (String.length old - 1) s'
          else String c (replace_from old new 0 s')
      end
  end.

Definition replace (old new s : string) : string := replace_from old new 0 s.

(** [l[i]] for a non-negative literal index. *)
Definition getitem {A} (l : list A) (i : nat) : result A :=
  match l !! i with
  | Some a => Ok a
  | None => Raise IndexError
  end.

(** [l[:n]]: a negative stop counts from the end. *)
Definition slice_to {A} (l : list A) (n : Z) : list A :=
  if 0 <=? n then take (Z.to_nat n) l
  else take (length l - Z.to_nat (- n))%nat l.

(** [l[i:i+n]] for [0 <= i] and [0 < n]. *)
Definition slice {A} (l : list A) (i n : Z) : list A :=
  take (Z.to_nat n) (drop (Z.to_nat i) l).

(** [math.ceil(a / b)] for a positive literal [b].  The quotient is a
    float in Python; for the integers below 2^53 in magnitude it rounds
    to the same integer as the exact quotient.  The program calls it on
    [width * height], at most 240 when both are positive; a product that
    is not positive gives no page either way. *)
Definition ceil_div (a b : Z) : Z := - ((- a) / b).

(** [range(0, stop, step)] with [0 <= stop]: empty for a negative step,
    [ValueError] for step zero. *)
Definition range_step (stop step : Z) : result (list Z) :=
  if step =? 0 then Raise ValueError
  else if step <? 0 then Ok []
  else Ok (map (λ k, Z.of_nat k * step) (seq 0 (Z.to_nat (ceil_div stop step)))).

(** [range(1, stop)]. *)
Definition range_from1 (stop : Z) : list Z :=
  map Z.of_nat (seq 1 (Z.to_nat (stop - 1))).

End Py.
Import Py.

Notation "x <- m ;; k" := (bind m (λ x, k))
  (at level 100, m at next level, right associativity, only parsing).


(** ** The provider's response, restricted to the fields the program reads *)

(** An album of [data["topalbums"]["album"]]: [album["name"]],
    [album["artist"]["name"]], [album["playcount"]] and the ["#text"] of
    each entry of [album["image"]]. *)
Record album := {
  album_name : string;
  album_artist_name : string;
  album_playcount : pyval;
  album_image : list string
}.

(** An artist of [data["topartists"]["artist"]]. *)
Record artist := {
  artist_name : string;
  artist_playcount : pyval
}.

(** A track of [data["recenttracks"]["track"]]: [track["name"]],
    [track["artist"]["#text"]] and the ["#text"] of each entry of
    [track["image"]]. *)
Record track := {
  track_name : string;
  track_artist_text : string;
  track_image : list string
}.

(** [data["recenttracks"]["track"]] is a list, or a single object when the
    user has exactly one track. *)
Inductive tracks :=
| TrackList (l : list track)
| TrackDict (t : track).

(** The decoded JSON body of the provider: whether it has an ["error"] key,
    its ["message"] if any, and the three containers, each absent ([None])
    or present. *)
Record content := {
  has_error : bool;
  message : option string;
  topalbums_album : option (list album);
  topartists_artist : option (list artist);
  recenttracks_track : option tracks
}.

(** ** The network *)

(** A value of a [params] dictionary. *)
Inductive param :=
| PStr (s : string)
| PInt (z : Z).

(** [session.get(url, params=params)]. *)
Record request := {
  req_url : string;
  req_params : list (string * param)
}.

(** What [await response.json()] does. *)
Inductive json_outcome :=
| JsonOk (c : content)
| JsonContentTypeError
| JsonDecodeError.

(** A response: its status and the three readings of its body the program
    uses ([resp.read()], [response.text()], [response.json()]). *)
Record response := {
  status : Z;
  read : bytes;
  text : string;
  json : json_outcome
}.

Inductive outcome :=
| Responds (r : response)
| Fails.

(** The trace records every request sent, in order, and every call of
    [get_img] with its argument. *)
Inductive event :=
| Net (r : request)
| Call_get_img (url : string).

Definition trace := list event.

#[global] Instance param_eq_dec : EqDecision param.
Proof. solve_decision. Defined.
#[global] Instance request_eq_dec : EqDecision request.
Proof. solve_decision. Defined.
#[global] Instance event_eq_dec : EqDecision event.
Proof. solve_decision. Defined.

(** The image cell of one artist row of a listing page: what
    [div.find("img")["src"]] meets there. *)
Inductive img_tag :=
| NoImg                  (* no [img] element: subscripting [None] *)
| ImgNoSrc               (* an [img] without [src] *)
| ImgSrc (src : string).

(** Everything outside the program: how the network answers a request
    given the trace so far, what PIL makes of a byte string (the size of the
    decoded image, or [None] when [Image.open] cannot identify it), and the
    [td.chartlist-image] cells BeautifulSoup finds in a document, in
    document order. *)
Record world := {
  net : trace → request → outcome;
  image_size : bytes → option (Z * Z);
  chartlist_image : string → list img_tag
}.

(** ** Awaiting code: state (the trace) and exceptions *)

Definition M (A : Type) : Type := trace → result A * trace.

#[global] Instance M_ret : Ret M := λ A a t, (Ok a, t).
#[global] Instance M_bind : Bind M := λ A B m f t,
  match m t with
  | (Ok a, t') => f a t'
  | (Raise e, t') => (Raise e, t')
  end.

Definition raise {A} (e : exn) : M A := λ t, (Raise e, t).
Definition lift {A} (r : result A) : M A := λ t, (r, t).
Definition emit (e : event) : M unit := λ t, (Ok tt, t ++ [e]).

(** [asyncio.gather] over [tasks]: every task runs (here one after the
    other, in the order of the argument list); the results come back in
    that order, whatever the order of completion; a failed task makes the
    whole [gather] raise, the other requests having been sent all the
    same. *)
Fixpoint gather {A} (tasks : list (M A)) : M (list A) :=
  match tasks with
  | [] => ret []
  | task :: rest => λ t,
      match task t with
      | (Ok a, t') =>
          match gather rest t' with
          | (Ok l, t'') => (Ok (a :: l), t'')
          | (Raise e, t'') => (Raise e, t'')
          end
      | (Raise e, t') => (Raise e, (gather rest t').2)
      end
  end.

(** ** The program *)

Definition DATATYPES : list (string * string) :=
  [("albums", "user.gettopalbums");
   ("artists", "user.gettopartists");
   ("recenttracks", "user.getrecenttracks")].

Definition NO_IMAGE_PLACEHOLDER : string :=
  "https://lastfm.freetls.fastly.net/i/u/300x300/2a96cbd8b46e442fc41c2b86b821562f.png".

Definition period_format_map : list (string * string) :=
  [("7day", "LAST_7_DAYS");
   ("1month", "LAST_30_DAYS");
   ("3month", "LAST_90_DAYS");
   ("6month", "LAST_180_DAYS");
   ("12month", "LAST_365_DAYS");
   ("overall", "ALL")].

(** [d[k]] and [k in d] on a dictionary literal. *)
Fixpoint dict_get (d : list (string * string)) (k : string) : option string :=
  match d with
  | [] => None
  | (k', v) :: d' => if decide (k = k') then Some v else dict_get d' k
  end.

Definition format_plays (amount : pyval) : string :=
  match amount with
  | VInt 1 => "play"
  | _ => "plays"
  end.

(** ** Images *)

(** A tile: the in-memory PNG file that [charts] and [gen_track_chart]
    append to [imgs].  It is the decoded artwork [tile_source] (of size
    [tile_size]) with [tile_text] drawn at [tile_xy], saved under
    [tile_name]. *)
Record tile := {
  tile_name : string;
  tile_source : bytes;
  tile_size : Z * Z;
  tile_xy : Z * Z;
  tile_text : string
}.

Definition box : Type := Z * Z * Z * Z.

(** The canvas, as the sequence of PIL operations that built it. *)
Inductive image :=
| New (size : Z * Z)                              (* [Image.new("RGBA", size)] *)
| Paste (final : image) (new : tile) (b : box)    (* [final.paste(new, b)] *)
| Resize (final : image) (size : Z * Z).          (* [final.resize(size, ...)] *)

(** [im.size]. *)
Fixpoint size (im : image) : Z * Z :=
  match im with
  | New sz => sz
  | Paste final _ _ => size final
  | Resize _ sz => sz
  end.

(** The tiles pasted on a canvas with their boxes, in pasting order. *)
Fixpoint pastes (im : image) : list (tile * box) :=
  match im with
  | New _ => []
  | Paste final new b => pastes final ++ [(new, b)]
  | Resize final _ => pastes final
  end.

(** [Image.new] refuses a negative width or height. *)
Definition Image_new (dimensions : Z * Z) : result image :=
  if (dimensions.1 <? 0) || (dimensions.2 <? 0) then Raise ValueError
  else Ok (New dimensions).

(** The in-memory file [create_graph] returns: [final.save(file, format)]
    and [file.name]. *)
Record file := {
  file_name : string;
  file_format : string;
  file_image : image
}.

(** [StreamingResponse(content=..., media_type=..., status_code=...)]. *)
Record streaming_response := {
  resp_content : file;
  media_type : string;
  status_code : Z
}.

(** [chunks(l, n)], consumed by a [for] loop. *)
Definition chunks {A} (l : list A) (n : Z) : result (list (list A)) :=
  starts <- range_step (Z.of_nat (length l)) n ;;
  Ok (map (λ i, slice l i n) starts).

(** The local variables of [create_graph] that its loops assign; [w] and
    [h] start as the parameters and are overwritten by each tile's size. *)
Record locals := {
  v_final : image;
  v_x : Z;
  v_y : Z;
  v_w : Z;
  v_h : Z
}.

(** Body of [for img in chunked]. *)
Definition paste_img (st : locals) (img : tile) : locals :=
  let '(w, h) := tile_size img in
  {| v_final := Paste (v_final st) img (v_x st, v_y st, v_x st + w, v_y st + h);
     v_x := v_x st + 300;
     v_y := v_y st;
     v_w := w;
     v_h := h |}.

(** Body of [for chunked in images]. *)
Definition paste_chunk (st : locals) (chunked : list tile) : locals :=
  let st := foldl paste_img
              {| v_final := v_final st; v_x := 0; v_y := v_y st; v_w := v_w st; v_h := v_h st |}
              chunked in
  {| v_final := v_final st; v_x := v_x st; v_y := v_y st + 300; v_w := v_w st; v_h := v_h st |}.

(** The canvas after the two loops of [create_graph], before the size
    check. *)
Definition compose (data : list tile) (w h : Z) : result image :=
  let dimensions := (300 * w, 300 * h) in
  final <- Image_new dimensions ;;
  images <- chunks data w ;;
  let st := foldl paste_chunk {| v_final := final; v_x := 0; v_y := 0; v_w := w; v_h := h |} images in
  Ok (v_final st).

(** The size check of [create_graph]. *)
Definition downsize (final : image) : image :=
  let '(w, h) := size final in
  if (w >? 2100) && (h >? 2100) then Resize final (2100, 2100) else final.

(** [final.save(file, "webp")] followed by [file.name = "chart.webp"].  The
    WebP encoder refuses a canvas with an empty side, and [save] passes
    the refusal on as [ValueError].  It refuses as well a side of more
    than 16383 pixels, which this definition does not cover: the canvas of
    a request that passed the size check of [lastfm_chart] has sides of at
    most 9300 pixels. *)
Definition save_webp (final : image) : result file :=
  let '(w, h) := size final in
  if (w =? 0) || (h =? 0) then Raise ValueError
  else Ok {| file_name := "chart.webp"; file_format := "webp"; file_image := final |}.

Definition create_graph (data : list tile) (w h : Z) : result file :=
  final <- compose data w h ;;
  let final := downsize final in
  save_webp final.

Section Program.

Variable W : world.

(** [async with session.get(...) as response]. *)
Definition session_get (req : request) : M response := λ t,
  match net W t req with
  | Responds r => (Ok r, t ++ [Net req])
  | Fails => (Raise ClientError, t ++ [Net req])
  end.

Definition get (url : string) : request := {| req_url := url; req_params := [] |}.

(** [url or NO_IMAGE_PLACEHOLDER]. *)
Definition or_placeholder (url : string) : string :=
  if decide (url = "") then NO_IMAGE_PLACEHOLDER else url.

(** [get_img(url)].  Its first line notes the call on the trace, for the
    statements that count calls; the program itself keeps no such note. *)
Definition get_img (url : string) : M bytes :=
  _ <- emit (Call_get_img url) ;;
  resp <- session_get (get (or_placeholder url)) ;;
  if status resp =? 200 then ret (read resp)
  else
    resp <- session_get (get NO_IMAGE_PLACEHOLDER) ;;
    ret (read resp).

(** [fetch(url, params, handling="text")]. *)
Definition fetch_text (url : string) (params : list (string * param)) : M string :=
  response <- session_get {| req_url := url; req_params := params |} ;;
  ret (text response).

(** The list comprehension over [imagedivs]. *)
Definition upgrade (src : string) : string := replace "/avatar70s/" "/300x300/" src.

Fixpoint image_srcs (imagedivs : list img_tag) : result (list string) :=
  match imagedivs with
  | [] => Ok []
  | NoImg :: _ => Raise TypeError
  | ImgNoSrc :: _ => Raise (KeyError "src")
  | ImgSrc src :: divs => srcs <- image_srcs divs ;; Ok (upgrade src :: srcs)
  end.

(** The loop [for data in responses] of [scrape_artists_for_chart]. *)
Fixpoint collect_images (responses : list string) (images : list string) (amount : Z)
  : result (list string) :=
  match responses with
  | [] => Ok images
  | data :: rest =>
      if Z.of_nat (length images) >=? amount then Ok images
      else
        srcs <- image_srcs (chartlist_image W data) ;;
        collect_images rest (images ++ srcs) amount
  end.

(** The loop that builds [tasks]: [period_format_map[period]] is looked up
    in the body, so an unknown period raises only if there is a page. *)
Definition page_params (preset : string) (i : Z) : list (string * param) :=
  [("date_preset", PStr preset); ("page", PInt i)].

Definition artists_url (username : string) : string :=
  "https://www.last.fm/user/" +:+ username +:+ "/library/artists".

Definition page_numbers (amount : Z) : list Z := range_from1 (ceil_div amount 50 + 1).

Definition scrape_artists_for_chart (username period : string) (amount : Z) : M (list string) :=
  let url := artists_url username in
  tasks <- lift (match page_numbers amount with
                | [] => Ok []
                | pages =>
                    match dict_get period_format_map period with
                    | None => Raise (KeyError period)
                    | Some preset => Ok (map (λ i, fetch_text url (page_params preset i)) pages)
                    end
                end) ;;
  responses <- gather tasks ;;
  lift (collect_images responses [] amount).


(** Body of the loop of [charts]: open the artwork, split the label at
    the newline, wrap its second line after 30 characters, draw. *)
Definition charts_item (item : string * bytes) : result tile :=
  match image_size W item.2 with
  | None => Raise UnidentifiedImageError
  | Some sz =>
      let texts := split_nl item.1 in
      texts1 <- getitem texts 1 ;;
      if len texts1 >? 30 then
        texts0 <- getitem texts 0 ;;
        Ok {| tile_name := item.1 +:+ ".png";
              tile_source := item.2;
              tile_size := sz;
              tile_xy := (5, 227);
              tile_text := texts0 +:+ newline +:+ str_to 30 texts1
                           +:+ newline +:+ str_from 30 texts1 |}
      else
        Ok {| tile_name := item.1 +:+ ".png";
              tile_source := item.2;
              tile_size := sz;
              tile_xy := (5, 247);
              tile_text := item.1 |}
  end.

Definition charts (data : list (string * bytes)) (w h : Z) : result file :=
  imgs <- for_each charts_item data ;;
  create_graph imgs w h.

(** Body of the loop of [gen_track_chart]. *)
Definition gen_track_chart_item (item : string * bytes) : result tile :=
  match image_size W item.2 with
  | None => Raise UnidentifiedImageError
  | Some sz =>
      if len item.1 >? 30 then
        Ok {| tile_name := item.1 +:+ ".png";
              tile_source := item.2;
              tile_size := sz;
              tile_xy := (5, 247);
              tile_text := str_to 30 item.1 +:+ newline +:+ str_from 30 item.1 |}
      else
        Ok {| tile_name := item.1 +:+ ".png";
              tile_source := item.2;
              tile_size := sz;
              tile_xy := (5, 267);
              tile_text := item.1 |}
  end.

Definition gen_track_chart (data : list (string * bytes)) (w h : Z) : result file :=
  imgs <- for_each gen_track_chart_item data ;;
  create_graph imgs w h.

(** The four lines each loop of [create_chart] repeats:
    [if ref in chart_data: chart_img = chart_data[ref]]
    [else: chart_img = await get_img(ref); chart_data[ref] = chart_img]. *)
Definition cached_img (ref : string) (chart_data : gmap string bytes)
  : M (bytes * gmap string bytes) :=
  match chart_data !! ref with
  | Some chart_img => ret (chart_img, chart_data)
  | None =>
      chart_img <- get_img ref ;;
      ret (chart_img, <[ref := chart_img]> chart_data)
  end.

Definition album_label (album : album) : string :=
  str (album_playcount album) +:+ " " +:+ format_plays (album_playcount album)
  +:+ newline +:+ album_name album +:+ " - " +:+ album_artist_name album.

Definition artist_label (artist : artist) : string :=
  str (artist_playcount artist) +:+ " " +:+ format_plays (artist_playcount artist)
  +:+ newline +:+ artist_name artist.

Definition track_label (track : track) : string :=
  track_name track +:+ " - " +:+ track_artist_text track.

(** [for album in albums[: width * height]]. *)
Fixpoint albums_loop (albums : list album) (chart : list (string * bytes))
    (chart_data : gmap string bytes) : M (list (string * bytes)) :=
  match albums with
  | [] => ret chart
  | album :: rest =>
      ref <- lift (getitem (album_image album) 3) ;;
      r <- cached_img ref chart_data ;;
      albums_loop rest (chart ++ [(album_label album, r.1)]) r.2
  end.

(** [for i, artist in enumerate(iterator)]. *)
Fixpoint artists_loop (scraped_images : list string) (i : nat) (iterator : list artist)
    (chart : list (string * bytes)) (chart_data : gmap string bytes)
  : M (list (string * bytes)) :=
  match iterator with
  | [] => ret chart
  | artist :: rest =>
      ref <- lift (getitem scraped_images i) ;;
      r <- cached_img ref chart_data ;;
      artists_loop scraped_images (S i) rest (chart ++ [(artist_label artist, r.1)]) r.2
  end.

(** [for track in tracks[: width * height]]; the call of
    [gen_track_chart] is inside the loop body, so [img] is assigned once
    per track and stays unassigned when there is none. *)
Fixpoint tracks_loop (tracks : list track) (chart : list (string * bytes))
    (chart_data : gmap string bytes) (img : option file) (width height : Z)
  : M (option file) :=
  match tracks with
  | [] => ret img
  | track :: rest =>
      ref <- lift (getitem (track_image track) 3) ;;
      r <- cached_img ref chart_data ;;
      let chart := chart ++ [(track_label track, r.1)] in
      img <- lift (gen_track_chart chart width height) ;;
      tracks_loop rest chart r.2 (Some img) width height
  end.

(** [data[k1][k2]] for a container that may be missing. *)
Definition container {A} (k : string) (c : option A) : result A :=
  match c with
  | Some a => Ok a
  | None => Raise (KeyError k)
  end.

(** [if isinstance(tracks, dict): tracks = [tracks]]. *)
Definition as_list (tracks : tracks) : list track :=
  match tracks with
  | TrackList l => l
  | TrackDict t => [t]
  end.

Definition create_chart (data : content) (method : string) (height width : Z)
    (period username : string) : M file :=
  if decide (method = "user.gettopalbums") then
    albums <- lift (container "topalbums" (topalbums_album data)) ;;
    chart <- albums_loop (slice_to albums (width * height)) [] ∅ ;;
    lift (charts chart width height)
  else if decide (method = "user.gettopartists") then
    artists <- lift (container "topartists" (topartists_artist data)) ;;
    scraped_images <- scrape_artists_for_chart username period (width * height) ;;
    let iterator := slice_to artists (width * height) in
    chart <- artists_loop scraped_images 0 iterator [] ∅ ;;
    lift (charts chart width height)
  else if decide (method = "user.getrecenttracks") then
    tracks <- lift (container "recenttracks" (recenttracks_track data)) ;;
    let tracks := as_list tracks in
    img <- tracks_loop (slice_to tracks (width * height)) [] ∅ None width height ;;
    match img with
    | Some img => ret img
    | None => raise (UnboundLocalError "img")
    end
  else raise (UnboundLocalError "img").

Definition provider_request (username method period : string) : request :=
  {| req_url := "http://ws.audioscrobbler.com/2.0/";
     req_params := [("user", PStr username); ("method", PStr method);
                    ("period", PStr period); ("limit", PInt 100);
                    ("api_key", PStr "API_KEY"); ("format", PStr "json")] |}.

(** The block under [contextlib.suppress(aiohttp.ContentTypeError)]: a
    suppressed error leaves [content] unassigned, which the call of
    [create_chart] then meets. *)
Definition read_content (response : response) : result content :=
  match json response with
  | JsonDecodeError => Raise JSONDecodeError
  | JsonContentTypeError => Raise (UnboundLocalError "content")
  | JsonOk content =>
      if has_error content || negb (status response =? 200) then
        detail <- container "message" (message content) ;;
        Raise (HTTPException (status response) detail)
      else Ok content
  end.

Definition lastfm_chart (username datatype period : string) (height width : Z)
  : M streaming_response :=
  if height + width >? 31 then
    raise (HTTPException 400 "Height and width cannot be greater than 31")
  else
    match dict_get DATATYPES datatype with
    | None => raise (HTTPException 400 "Invalid datatype")
    | Some method =>
        response <- session_get (provider_request username method period) ;;
        content <- lift (read_content response) ;;
        chart <- create_chart content method height width period username ;;
        ret {| resp_content := chart; media_type := "image/png"; status_code := 200 |}
    end.

End Program.

(** ** Vocabulary of the statements *)

(** The requests sent along a trace, and the arguments of the calls of
    [get_img], both in order. *)
Definition requests (t : trace) : list request :=
  omap (λ e, match e with Net r => Some r | Call_get_img _ => None end) t.

Definition calls (t : trace) : list string :=
  omap (λ e, match e with Call_get_img url => Some url | Net _ => None end) t.

(** An awaiting computation only ever adds to the trace. *)
Definition extends {A} (m : M A) : Prop := ∀ t, t `prefix_of` (m t).2.

Fixpoint has_nl (s : string) : bool :=
  match s with
  | EmptyString => false
  | String c s' => Ascii.eqb c nl || has_nl s'
  end.

(** Row-major placement: tile number [k] (from 0) of a grid [w] tiles wide
    sits in column [k mod w] of row [k / w], 300 pixels per cell. *)
Definition place (w : Z) (k : nat) (tl : tile) : tile * box :=
  let x := 300 * (Z.of_nat k mod w) in
  let y := 300 * (Z.of_nat k / w) in
  (tl, (x, y, x + (tile_size tl).1, y + (tile_size tl).2)).

(** The request for page [i] of a user's artist listing. *)
Definition page_request (username preset : string) (i : Z) : request :=
  {| req_url := artists_url username; req_params := page_params preset i |}.

(** How the network answers the page requests [reqs], sent one after the
    other from trace [t] on. *)
Fixpoint page_outcomes (W : world) (reqs : list request) (t : trace) : list outcome :=
  match reqs with
  | [] => []
  | req :: rest => net W t req :: page_outcomes W rest (t ++ [Net req])
  end.

(** The resolver's result in the words of the specification: the
    concatenation [full] of the pages' upgraded URLs, cut down to its first
    [amount] entries. *)
Definition returns_truncated (W : world) (username period : string) (amount : Z)
    (t : trace) (full : list string) : Prop :=
  (scrape_artists_for_chart W username period amount t).1
  = Ok (take (Z.to_nat amount) full).

Ltac run_M :=
  unfold bind, M_bind, ret, M_ret, raise, lift, emit, session_get; simpl.

(** The labels of the ranked items the provider reports for a method, in
    the provider's order. *)
Definition ranked_labels (data : content) (method : string) : option (list string) :=
  if decide (method = "user.gettopalbums") then
    map album_label <$> topalbums_album data
  else if decide (method = "user.gettopartists") then
    map artist_label <$> topartists_artist data
  else if decide (method = "user.getrecenttracks") then
    (λ tracks, map track_label (as_list tracks)) <$> recenttracks_track data
  else None.

(** The image references of the items a request draws, in rank order: the
    fourth image entry of each album or track kept by the slice, or, for
    artists, the leading entries of what the resolver returned. *)
Definition references (W : world) (data : content) (method : string)
    (height width : Z) (period username : string) (t : trace) (refs : list string) : Prop :=
  if decide (method = "user.gettopalbums") then
    ∃ albums, topalbums_album data = Some albums
      ∧ Forall2 (λ album ref, album_image album !! 3%nat = Some ref)
          (slice_to albums (width * height)) refs
  else if decide (method = "user.gettopartists") then
    ∃ artists scraped, topartists_artist data = Some artists
      ∧ (scrape_artists_for_chart W username period (width * height) t).1 = Ok scraped
      ∧ length refs = length (slice_to artists (width * height))
      ∧ refs = take (length refs) scraped
  else
    ∃ tracks, recenttracks_track data = Some tracks
      ∧ Forall2 (λ track ref, track_image track !! 3%nat = Some ref)
          (slice_to (as_list tracks) (width * height)) refs.

(** A list of references resolved one after the other through the cache
    [chart_data]: what the three loops of [create_chart] do with the
    references of their items. *)
Fixpoint resolve_all (W : world) (refs : list string) (chart_data : gmap string bytes)
  : M (list bytes * gmap string bytes) :=
  match refs with
  | [] => ret ([], chart_data)
  | ref :: rest =>
      r <- cached_img W ref chart_data ;;
      rs <- resolve_all W rest r.2 ;;
      ret (r.1 :: rs.1, rs.2)
  end.

(** A world in which every request is answered and every body is an
    image. *)
Definition healthy (W : world) : Prop :=
  (∀ t req, net W t req ≠ Fails) ∧ (∀ b, is_Some (image_size W b)).

(** The provider's data can be drawn: every album or track has its fourth
    image entry and there is at least one track; for artists, the resolver
    returns at least as many URLs as there are artists to draw. *)
Definition drawable (W : world) (data : content) (method : string)
    (height width : Z) (period username : string) (t : trace) : Prop :=
  if decide (method = "user.gettopalbums") then
    ∃ albums, topalbums_album data = Some albums
      ∧ Forall (λ album, is_Some (album_image album !! 3%nat)) albums
  else if decide (method = "user.gettopartists") then
    ∃ artists scraped, topartists_artist data = Some artists
      ∧ (scrape_artists_for_chart W username period (width * height) t).1 = Ok scraped
      ∧ (length (slice_to artists (width * height)) ≤ length scraped)%nat
  else if decide (method = "user.getrecenttracks") then
    ∃ tracks, recenttracks_track data = Some tracks
      ∧ as_list tracks ≠ []
      ∧ Forall (λ track, is_Some (track_image track !! 3%nat)) (as_list tracks)
  else False.

(** What a tile keeps of the chart entry it was drawn from. *)
Definition tile_of (item : string * bytes) (tl : tile) : Prop :=
  tile_name tl = item.1 +:+ ".png" ∧ tile_source tl = item.2.

(** A file that shows the entries of [chart] as a grid [w] tiles wide. *)
Definition shows (chart : list (string * bytes)) (w : Z) (f : file) : Prop :=
  ∃ tiles, Forall2 tile_of chart tiles
    ∧ pastes (file_image f) = imap (place w) tiles.

(** A fetch that failed: no response, or a status other than 200. *)
Definition fetch_failed (o : outcome) : Prop :=
  match o with
  | Fails => True
  | Responds r => status r ≠ 200
  end.

(** The contract of the image fetcher in the words of the specification,
    for a reference whose fetch fails: exactly one retry is made, against
    the placeholder, and if that one fails too the failure is raised. *)
Definition retries_once_then_raises (W : world) (url : string) (t : trace) : Prop :=
  let t1 := t ++ [Call_get_img url] in
  let first := get (or_placeholder url) in
  let retry := get NO_IMAGE_PLACEHOLDER in
  fetch_failed (net W t1 first) →
  (get_img W url t).2 = t1 ++ [Net first; Net retry]
  ∧ (fetch_failed (net W (t1 ++ [Net first]) retry) →
     ∃ e, (get_img W url t).1 = Raise e).

(** ** Worlds and inputs used to exercise the program *)

Definition png_a : bytes := [Byte.x89; Byte.x50; Byte.x4e; Byte.x47; Byte.x0a].
Definition error_page : bytes := [Byte.x34; Byte.x30; Byte.x34].

Definition sample_album (name ref : string) (plays : Z) : album :=
  {| album_name := name;
     album_artist_name := "Radiohead";
     album_playcount := VStr (str (VInt plays));
     album_image := [""; ""; ""; ref] |}.

Definition sample_content : content :=
  {| has_error := false;
     message := None;
     topalbums_album := Some [sample_album "Kid A" "http://img/kida.png" 12;
                              sample_album "Amnesiac" "http://img/amnesiac.png" 7;
                              sample_album "Kid A (Deluxe)" "http://img/kida.png" 1];
     topartists_artist := Some [{| artist_name := "Radiohead"; artist_playcount := VStr "20" |}];
     recenttracks_track := Some (TrackList []) |}.

Definition listing_page : string := "<html>two artist rows</html>".

(** The two thumbnails of [listing_page]. *)
Definition thumbnails : list string :=
  ["https://lastfm.freetls.fastly.net/i/u/avatar70s/r1.jpg";
   "https://lastfm.freetls.fastly.net/i/u/avatar70s/r2.jpg"].

Definition answer (st : Z) (body : bytes) (page : string) : outcome :=
  Responds {| status := st; read := body; text := page; json := JsonOk sample_content |}.

(** Every request is answered with status 200; a listing page has two
    artist rows; every body decodes to a 300 by 300 image. *)
Definition W_up : world :=
  {| net := λ _ _, answer 200 png_a listing_page;
     image_size := λ _, Some (300, 300);
     chartlist_image := λ page,
       if decide (page = listing_page) then map ImgSrc thumbnails else [] |}.

(** No request gets a response. *)
Definition W_down : world :=
  {| net := λ _ _, Fails;
     image_size := λ _, Some (300, 300);
     chartlist_image := λ _, [] |}.

(** Every image request is answered with status 404 and an error page
    (which PIL happens to decode); the provider answers normally. *)
Definition W_404 : world :=
  {| net := λ _ req,
       if decide (req_url req = "http://ws.audioscrobbler.com/2.0/")
       then answer 200 [] ""
       else answer 404 error_page "";
     image_size := λ _, Some (300, 300);
     chartlist_image := λ _, [] |}.

(** The provider and the image host answer, the listing page has no
    artist row. *)
Definition W_no_rows : world :=
  {| net := λ _ _, answer 200 png_a "";
     image_size := λ _, Some (300, 300);
     chartlist_image := λ _, [] |}.

(** The first request is answered with status 404, later ones get no
    response. *)
Definition W_404_then_down : world :=
  {| net := λ t _, match requests t with
                   | [] => answer 404 error_page ""
                   | _ => Fails
                   end;
     image_size := λ _, Some (300, 300);
     chartlist_image := λ _, [] |}.

(** The provider answers; no other request gets a response. *)
Definition W_provider_only : world :=
  {| net := λ _ req,
       if decide (req_url req = "http://ws.audioscrobbler.com/2.0/")
       then answer 200 [] ""
       else Fails;
     image_size := λ _, Some (300, 300);
     chartlist_image := λ _, [] |}.

(** ** Further vocabulary and worlds *)

(** A computation whose added events always satisfy [P]. *)
Definition emits {A} (P : trace → Prop) (m : M A) : Prop :=
  ∀ t, ∃ evs, (m t).2 = t ++ evs ∧ P evs.

(** Events that hold at least one and at most two requests for each call
    of [get_img]. *)
Definition within_budget (evs : trace) : Prop :=
  (length (calls evs) ≤ length (requests evs) ≤ 2 * length (calls evs))%nat.

(** The labels of the items in the provider's answer, in its order, read
    off the answer itself: [recenttracks.track] is a list of tracks, or
    one track on its own. *)
Definition reported_labels (data : content) (method : string) : option (list string) :=
  if decide (method = "user.gettopalbums") then
    match topalbums_album data with
    | Some albums => Some (map album_label albums)
    | None => None
    end
  else if decide (method = "user.gettopartists") then
    match topartists_artist data with
    | Some artists => Some (map artist_label artists)
    | None => None
    end
  else if decide (method = "user.getrecenttracks") then
    match recenttracks_track data with
    | Some (TrackList tracks) => Some (map track_label tracks)
    | Some (TrackDict track) => Some [track_label track]
    | None => None
    end
  else None.

(** [old in s]. *)
Fixpoint occurs (old s : string) : bool :=
  match s with
  | EmptyString => String.prefix old s
  | String _ s' => String.prefix old s || occurs old s'
  end.

(** A box lies inside a canvas of the given size. *)
Definition inside (sz : Z * Z) (b : box) : Prop :=
  let '(x0, y0, x1, y1) := b in
  0 ≤ x0 ∧ x0 ≤ x1 ∧ x1 ≤ sz.1 ∧ 0 ≤ y0 ∧ y0 ≤ y1 ∧ y1 ≤ sz.2.

(** Two boxes share no pixel. *)
Definition apart (a b : box) : Prop :=
  let '(ax0, ay0, ax1, ay1) := a in
  let '(bx0, by0, bx1, by1) := b in
  ax1 ≤ bx0 ∨ bx1 ≤ ax0 ∨ ay1 ≤ by0 ∨ by1 ≤ ay0.

Definition error_content : content :=
  {| has_error := true;
     message := Some "User not found";
     topalbums_album := None;
     topartists_artist := None;
     recenttracks_track := None |}.

(** The provider answers 404 with an error object. *)
Definition W_user_not_found : world :=
  {| net := λ _ _, Responds {| status := 404; read := []; text := "";
                               json := JsonOk error_content |};
     image_size := λ _, Some (300, 300);
     chartlist_image := λ _, [] |}.

(** The provider answers with a body that is not served as JSON. *)
Definition W_not_json : world :=
  {| net := λ _ _, Responds {| status := 200; read := []; text := "<html>";
                               json := JsonContentTypeError |};
     image_size := λ _, Some (300, 300);
     chartlist_image := λ _, [] |}.

(** A tile of the nominal size. *)
Definition sample_tile (label : string) : tile :=
  {| tile_name := label +:+ ".png"; tile_source := png_a; tile_size := (300, 300);
     tile_xy := (5, 267); tile_text := label |}.

(** Two albums, the second with two image entries only. *)
Definition short_image_content : content :=
  {| has_error := false;
     message := None;
     topalbums_album := Some [sample_album "Kid A" "http://img/kida.png" 12;
                              {| album_name := "Pablo Honey";
                                 album_artist_name := "Radiohead";
                                 album_playcount := VStr "3";
                                 album_image := [""; ""] |}];
     topartists_artist := None;
     recenttracks_track := None |}.

(** A single recent track, reported as an object. *)
Definition one_track_content : content :=
  {| has_error := false;
     message := None;
     topalbums_album := None;
     topartists_artist := None;
     recenttracks_track :=
       Some (TrackDict {| track_name := "Idioteque"; track_artist_text := "Radiohead";
                          track_image := [""; ""; ""; "http://img/kida.png"] |}) |}.

(** Events whose requests all go to the placeholder or to one of the
    [allowed] addresses, without parameters. *)
Definition only_requests (allowed : list string) (evs : trace) : Prop :=
  Forall (λ r, r = get NO_IMAGE_PLACEHOLDER ∨ ∃ url, url ∈ allowed ∧ r = get url)
    (requests evs).

(** * Properties *)

(** ** Built-ins *)

Example str_int : str (VInt 12) = "12".
Proof. reflexivity. Qed.

Example split_two_lines : split_nl ("3 plays" +:+ newline +:+ "Kid A") = ["3 plays"; "Kid A"].
Proof. reflexivity. Qed.

Example split_no_newline : split_nl "abc" = ["abc"].
Proof. reflexivity. Qed.

Example replace_avatar :
  replace "/avatar70s/" "/300x300/" "https://lastfm.freetls.fastly.net/i/u/avatar70s/ab.jpg"
  = "https://lastfm.freetls.fastly.net/i/u/300x300/ab.jpg".
Proof. reflexivity. Qed.

Example slice_to_neg : slice_to [1; 2; 3; 4] (-1) = [1; 2; 3].
Proof. reflexivity. Qed.

Example range_step_3 : range_step 7 3 = Ok [0; 3; 6].
Proof. reflexivity. Qed.

Example range_from1_3 : range_from1 (ceil_div 101 50 + 1) = [1; 2; 3].
Proof. reflexivity. Qed.

(** ** Traces only grow *)

Lemma extends_ret {A} (a : A) : extends (ret a : M A).
Proof. intros t. reflexivity. Qed.

Lemma extends_raise {A} e : extends (raise e : M A).
Proof. intros t. reflexivity. Qed.

Lemma extends_lift {A} (r : result A) : extends (lift r).
Proof. intros t. reflexivity. Qed.

Lemma extends_emit e : extends (emit e).
Proof. intros t. simpl. by apply prefix_app_r. Qed.

Lemma extends_bind {A B} (m : M A) (f : A → M B) :
  extends m → (∀ a, extends (f a)) → extends (bind m f).
Proof.
  intros Hm Hf t. unfold bind, M_bind. specialize (Hm t).
  destruct (m t) as [[a|e] t1]; simpl in *; [|done].
  etrans; [exact Hm | apply Hf].
Qed.

Lemma extends_session_get W req : extends (session_get W req).
Proof.
  intros t. unfold session_get.
  destruct (net W t req); simpl; by apply prefix_app_r.
Qed.

Lemma extends_get_img W url : extends (get_img W url).
Proof.
  unfold get_img. apply extends_bind; [apply extends_emit | intros _].
  apply extends_bind; [apply extends_session_get | intros resp].
  destruct (status resp =? 200); [apply extends_ret |].
  apply extends_bind; [apply extends_session_get | intros; apply extends_ret].
Qed.

Lemma extends_cached_img W ref cd : extends (cached_img W ref cd).
Proof.
  unfold cached_img. destruct (cd !! ref); [apply extends_ret |].
  apply extends_bind; [apply extends_get_img | intros; apply extends_ret].
Qed.

Lemma extends_albums_loop W albums : ∀ chart cd, extends (albums_loop W albums chart cd).
Proof.
  induction albums as [|a albums IH]; intros chart cd; simpl; [apply extends_ret |].
  apply extends_bind; [apply extends_lift | intros ref].
  apply extends_bind; [apply extends_cached_img | intros r; apply IH].
Qed.

Lemma extends_artists_loop W scraped iterator :
  ∀ i chart cd, extends (artists_loop W scraped i iterator chart cd).
Proof.
  induction iterator as [|a iterator IH]; intros i chart cd; simpl; [apply extends_ret |].
  apply extends_bind; [apply extends_lift | intros ref].
  apply extends_bind; [apply extends_cached_img | intros r; apply IH].
Qed.

Lemma extends_tracks_loop W tracks width height :
  ∀ chart cd img, extends (tracks_loop W tracks chart cd img width height).
Proof.
  induction tracks as [|a tracks IH]; intros chart cd img; simpl; [apply extends_ret |].
  apply extends_bind; [apply extends_lift | intros ref].
  apply extends_bind; [apply extends_cached_img | intros r].
  apply extends_bind; [apply extends_lift | intros f; apply IH].
Qed.

Lemma extends_gather {A} (tasks : list (M A)) :
  Forall extends tasks → extends (gather tasks).
Proof.
  induction 1 as [|task tasks Htask _ IH]; intros t; simpl; [done |].
  specialize (Htask t).
  destruct (task t) as [[a|e] t1]; simpl in *.
  - specialize (IH t1). destruct (gather tasks t1) as [[l|e] t2]; simpl in *; by etrans.
  - specialize (IH t1). by etrans.
Qed.

Lemma extends_fetch_text W url params : extends (fetch_text W url params).
Proof.
  unfold fetch_text.
  apply extends_bind; [apply extends_session_get | intros; apply extends_ret].
Qed.

Lemma extends_scrape W username period amount :
  extends (scrape_artists_for_chart W username period amount).
Proof.
  unfold scrape_artists_for_chart.
  assert (Hg : ∀ tasks : list (M string), Forall extends tasks →
            extends (responses <- gather tasks ;; lift (collect_images W responses [] amount))).
  { intros tasks Htasks.
    apply extends_bind; [by apply extends_gather | intros; apply extends_lift]. }
  destruct (page_numbers amount) as [|i pages] eqn:Hpages.
  - apply (Hg []). constructor.
  - destruct (dict_get period_format_map period) as [preset|].
    + apply (Hg (map _ (i :: pages))).
      apply Forall_forall. intros task [j [-> _]]%list_elem_of_fmap.
      apply extends_fetch_text.
    + intros t. reflexivity.
Qed.

Lemma extends_create_chart W data method height width period username :
  extends (create_chart W data method height width period username).
Proof.
  unfold create_chart. repeat case_decide; try apply extends_raise.
  - apply extends_bind; [apply extends_lift | intros albums].
    apply extends_bind; [apply extends_albums_loop | intros; apply extends_lift].
  - apply extends_bind; [apply extends_lift | intros artists].
    apply extends_bind; [apply extends_scrape | intros scraped].
    apply extends_bind; [apply extends_artists_loop | intros; apply extends_lift].
  - apply extends_bind; [apply extends_lift | intros tracks].
    apply extends_bind; [apply extends_tracks_loop | intros [img|]].
    + apply extends_ret.
    + apply extends_raise.
Qed.

Lemma extends_lastfm_chart W username datatype period height width :
  extends (lastfm_chart W username datatype period height width).
Proof.
  unfold lastfm_chart. destruct (height + width >? 31); [apply extends_raise |].
  destruct (dict_get DATATYPES datatype) as [method|]; [| apply extends_raise].
  apply extends_bind; [apply extends_session_get | intros response].
  apply extends_bind; [apply extends_lift | intros content].
  apply extends_bind; [apply extends_create_chart | intros; apply extends_ret].
Qed.

(** ** Request validation *)

(** A request whose sum is at most 31 and whose datatype is a key of
    [DATATYPES] reaches the provider: the first thing added to the trace is
    the provider request. *)
Lemma lastfm_chart_reaches_provider W username datatype method period height width t :
  height + width ≤ 31 →
  dict_get DATATYPES datatype = Some method →
  (t ++ [Net (provider_request username method period)])
    `prefix_of` (lastfm_chart W username datatype period height width t).2.
Proof.
  intros Hsum Hkey. unfold lastfm_chart.
  destruct (Z.gtb_spec (height + width) 31) as [?|_]; [lia |].
  rewrite Hkey.
  set (k := λ response : response, _).
  change (bind (session_get W (provider_request username method period)) k t)
    with (match session_get W (provider_request username method period) t with
          | (Ok a, t') => k a t'
          | (Raise e, t') => (Raise e, t')
          end).
  unfold session_get.
  destruct (net W t (provider_request username method period)) as [r|]; simpl; [| done].
  assert (Hk : extends (k r)).
  { subst k. simpl.
    apply extends_bind; [apply extends_lift | intros content].
    apply extends_bind; [apply extends_create_chart | intros; apply extends_ret]. }
  apply Hk.
Qed.

(** C3. A request with [height + width > 31], or whose datatype is not a
    key of [DATATYPES], is answered with HTTP status 400 and the trace is
    left as it was: no request has been sent.  A request with
    [height + width = 31] and a supported datatype passes validation: the
    provider request is sent. *)
Theorem lastfm_chart_rejects_before_any_request
    W username datatype period height width t :
  (height + width > 31 ∨ dict_get DATATYPES datatype = None →
   ∃ detail, lastfm_chart W username datatype period height width t
             = (Raise (HTTPException 400 detail), t))
  ∧ (height + width = 31 →
     ∀ method, dict_get DATATYPES datatype = Some method →
     (t ++ [Net (provider_request username method period)])
       `prefix_of` (lastfm_chart W username datatype period height width t).2).
Proof.
  split.
  - intros Hbad. unfold lastfm_chart.
    destruct (Z.gtb_spec (height + width) 31) as [Hgt|Hle]; [by eexists |].
    destruct Hbad as [?| ->]; [lia | by eexists].
  - intros Hsum method Hkey. apply lastfm_chart_reaches_provider; [lia | done].
Qed.

Lemma lastfm_chart_rejects_before_any_request_witness :
  (∃ detail, lastfm_chart W_up "alice" "albums" "overall" 16 16 []
             = (Raise (HTTPException 400 detail), []))
  ∧ (∃ detail, lastfm_chart W_up "alice" "toptracks" "overall" 3 3 []
               = (Raise (HTTPException 400 detail), []))
  ∧ [Net (provider_request "alice" "user.gettopalbums" "overall")]
      `prefix_of` (lastfm_chart W_up "alice" "albums" "overall" 16 15 []).2.
Proof.
  split; [| split].
  - apply (proj1 (lastfm_chart_rejects_before_any_request
                    W_up "alice" "albums" "overall" 16 16 [])).
    left. lia.
  - apply (proj1 (lastfm_chart_rejects_before_any_request
                    W_up "alice" "toptracks" "overall" 3 3 [])).
    right. reflexivity.
  - apply (proj2 (lastfm_chart_rejects_before_any_request
                    W_up "alice" "albums" "overall" 16 15 [])
             eq_refl "user.gettopalbums" eq_refl).
Defined.



(** ** The canvas: size and downsizing *)

Lemma size_foldl_paste_img chunked : ∀ st,
  size (v_final (foldl paste_img st chunked)) = size (v_final st).
Proof.
  induction chunked as [|img chunked IH]; intros st; simpl; [done |].
  rewrite IH. unfold paste_img. by destruct (tile_size img).
Qed.

Lemma size_foldl_paste_chunk images : ∀ st,
  size (v_final (foldl paste_chunk st images)) = size (v_final st).
Proof.
  induction images as [|chunked images IH]; intros st; simpl; [done |].
  rewrite IH. unfold paste_chunk. simpl. by rewrite size_foldl_paste_img.
Qed.

Lemma chunks_positive {A} (l : list A) (n : Z) :
  1 ≤ n →
  chunks l n = Ok (map (λ i, slice l i n)
                     (map (λ k, Z.of_nat k * n)
                        (seq 0 (Z.to_nat (ceil_div (Z.of_nat (length l)) n))))).
Proof.
  intros Hn. unfold chunks, range_step.
  destruct (Z.eqb_spec n 0); [lia |].
  destruct (Z.ltb_spec n 0); [lia | done].
Qed.

Lemma compose_size data w h :
  1 ≤ w → 0 ≤ h →
  ∃ final, compose data w h = Ok final ∧ size final = (300 * w, 300 * h).
Proof.
  intros Hw Hh. unfold compose, Image_new. simpl.
  destruct (Z.ltb_spec (300 * w) 0); [lia |].
  destruct (Z.ltb_spec (300 * h) 0); [lia |]. simpl.
  rewrite chunks_positive by done. simpl.
  eexists. split; [done |]. by rewrite size_foldl_paste_chunk.
Qed.

Lemma Resize_neq final : ∀ sz, Resize final sz ≠ final.
Proof.
  induction final as [| |final IH sz']; intros sz; [done | done |].
  intros Heq. injection Heq as Heq _. by apply (IH sz').
Qed.

Lemma save_webp_downsize final w h :
  size final = (w, h) → 1 ≤ w → 1 ≤ h →
  save_webp (downsize final)
  = Ok {| file_name := "chart.webp"; file_format := "webp"; file_image := downsize final |}.
Proof.
  intros Hsz Hw Hh. unfold save_webp, downsize. rewrite Hsz.
  destruct ((w >? 2100) && (h >? 2100)); simpl; [done |]. rewrite Hsz.
  destruct (Z.eqb_spec w 0); [lia |]. by destruct (Z.eqb_spec h 0); [lia |].
Qed.

Lemma save_webp_inv final f :
  save_webp final = Ok f →
  f = {| file_name := "chart.webp"; file_format := "webp"; file_image := final |}
  ∧ (size final).1 ≠ 0 ∧ (size final).2 ≠ 0.
Proof.
  unfold save_webp. destruct (size final) as [w h]. simpl.
  destruct (Z.eqb_spec w 0); [done |]. destruct (Z.eqb_spec h 0); [done |].
  simpl. by intros [= <-].
Qed.

(** C2. For a grid of at least one column and one row the canvas built by
    [create_graph] measures exactly [(300 * w, 300 * h)] before the size
    check; the check replaces it by a 2100 by 2100 resize exactly when both
    measures exceed 2100, and leaves it alone otherwise. *)
Theorem create_graph_dimensions data w h :
  1 ≤ w → 1 ≤ h →
  ∃ final,
    compose data w h = Ok final
    ∧ size final = (300 * w, 300 * h)
    ∧ create_graph data w h
      = Ok {| file_name := "chart.webp"; file_format := "webp";
              file_image := downsize final |}
    ∧ (downsize final = Resize final (2100, 2100) ↔ 300 * w > 2100 ∧ 300 * h > 2100)
    ∧ (downsize final ≠ Resize final (2100, 2100) → downsize final = final)
    ∧ (300 * w > 2100 ∧ 300 * h > 2100 → size (downsize final) = (2100, 2100)).
Proof.
  intros Hw Hh.
  destruct (compose_size data w h) as (final & Hc & Hsz); [done | lia |].
  exists final. split; [done |]. split; [done |].
  split.
  { unfold create_graph, bind, result_bind. rewrite Hc.
    apply (save_webp_downsize final (300 * w) (300 * h)); [done | lia | lia]. }
  unfold downsize. rewrite Hsz.
  destruct (Z.gtb_spec (300 * w) 2100), (Z.gtb_spec (300 * h) 2100); simpl;
    (split; [split; [intros Heq; try lia; by apply symmetry, Resize_neq in Heq
                    | intros [? ?]; try lia; done]
            | split; [intros Hne; try done | intros [? ?]; try lia; done]]).
Qed.

Lemma create_graph_dimensions_witness :
  (∃ final,
    compose [] 3 3 = Ok final
    ∧ size final = (300 * 3, 300 * 3)
    ∧ create_graph [] 3 3
      = Ok {| file_name := "chart.webp"; file_format := "webp";
              file_image := downsize final |}
    ∧ (downsize final = Resize final (2100, 2100) ↔ 300 * 3 > 2100 ∧ 300 * 3 > 2100)
    ∧ (downsize final ≠ Resize final (2100, 2100) → downsize final = final)
    ∧ (300 * 3 > 2100 ∧ 300 * 3 > 2100 → size (downsize final) = (2100, 2100)))
  ∧ (∃ final,
    compose [] 8 8 = Ok final
    ∧ size final = (300 * 8, 300 * 8)
    ∧ create_graph [] 8 8
      = Ok {| file_name := "chart.webp"; file_format := "webp";
              file_image := downsize final |}
    ∧ (downsize final = Resize final (2100, 2100) ↔ 300 * 8 > 2100 ∧ 300 * 8 > 2100)
    ∧ (downsize final ≠ Resize final (2100, 2100) → downsize final = final)
    ∧ (300 * 8 > 2100 ∧ 300 * 8 > 2100 → size (downsize final) = (2100, 2100))).
Proof.
  split.
  - apply (create_graph_dimensions [] 3 3); lia.
  - apply (create_graph_dimensions [] 8 8); lia.
Defined.

(** ** Labels: wrapping after 30 characters *)

Lemma split_nl_cons s : ∃ line lines, split_nl s = line :: lines.
Proof.
  destruct s as [|c s]; simpl; [by eexists _, _ |].
  destruct (Ascii.eqb c nl); [by eexists _, _ |].
  destruct (split_nl s); by eexists _, _.
Qed.

Lemma split_nl_one_line s : has_nl s = false → split_nl s = [s].
Proof.
  induction s as [|c s IH]; simpl; [done |].
  intros [Hc Hs]%orb_false_iff. rewrite Hc, (IH Hs). done.
Qed.

Lemma split_nl_first_line line1 s :
  has_nl line1 = false →
  split_nl (line1 +:+ newline +:+ s) = line1 :: split_nl s.
Proof.
  induction line1 as [|c line1 IH]; simpl; [done |].
  intros [Hc Hs]%orb_false_iff. rewrite Hc. simpl in IH. by rewrite (IH Hs).
Qed.

Lemma str_to_from n : ∀ s, str_to n s +:+ str_from n s = s.
Proof.
  induction n as [|n IH]; intros [|c s]; simpl; try done.
  change (String c (str_to n s +:+ str_from n s) = String c s). by rewrite IH.
Qed.

Lemma length_str_to n : ∀ s, String.length (str_to n s) = (n `min` String.length s)%nat.
Proof.
  induction n as [|n IH]; intros [|c s]; simpl; try done. by rewrite IH.
Qed.

Lemma length_str_from n : ∀ s, String.length (str_from n s) = (String.length s - n)%nat.
Proof.
  induction n as [|n IH]; intros [|c s]; simpl; try done.
Qed.

(** The two branches of [charts], for a label of two lines. *)
Lemma charts_item_two_lines W line1 line2 img sz :
  image_size W img = Some sz →
  has_nl line1 = false → has_nl line2 = false →
  charts_item W (line1 +:+ newline +:+ line2, img)
  = Ok {| tile_name := (line1 +:+ newline +:+ line2) +:+ ".png";
          tile_source := img;
          tile_size := sz;
          tile_xy := (5, if len line2 >? 30 then 227 else 247);
          tile_text := if len line2 >? 30
                       then line1 +:+ newline +:+ str_to 30 line2
                            +:+ newline +:+ str_from 30 line2
                       else line1 +:+ newline +:+ line2 |}.
Proof.
  intros Hsz H1 H2. unfold charts_item. cbn [fst snd]. rewrite Hsz.
  rewrite (split_nl_first_line _ _ H1), (split_nl_one_line _ H2).
  cbn [getitem lookup list_lookup bind result_bind].
  by destruct (len line2 >? 30).
Qed.

Lemma gen_track_chart_item_label W label img sz :
  image_size W img = Some sz →
  gen_track_chart_item W (label, img)
  = Ok {| tile_name := label +:+ ".png";
          tile_source := img;
          tile_size := sz;
          tile_xy := (5, if len label >? 30 then 247 else 267);
          tile_text := if len label >? 30
                       then str_to 30 label +:+ newline +:+ str_from 30 label
                       else label |}.
Proof.
  intros Hsz. unfold gen_track_chart_item. cbn [fst snd]. rewrite Hsz.
  by destruct (len label >? 30).
Qed.

(** C8. A two-line label whose second line has exactly 30 characters is
    drawn unchanged at (5, 247); with 31 characters the second line is cut
    after its 30th character into a line of 30 and a line of 1 and the
    label is drawn at (5, 227).  A recent-track label of exactly 30
    characters is drawn unchanged at (5, 267); with 31 characters it is cut
    after the 30th and drawn at (5, 247). *)
Theorem label_wrap_boundary W line1 line2 label img sz :
  image_size W img = Some sz →
  has_nl line1 = false → has_nl line2 = false →
  (String.length line2 = 30%nat →
   charts_item W (line1 +:+ newline +:+ line2, img)
   = Ok {| tile_name := (line1 +:+ newline +:+ line2) +:+ ".png";
           tile_source := img; tile_size := sz;
           tile_xy := (5, 247);
           tile_text := line1 +:+ newline +:+ line2 |})
  ∧ (String.length line2 = 31%nat →
     charts_item W (line1 +:+ newline +:+ line2, img)
     = Ok {| tile_name := (line1 +:+ newline +:+ line2) +:+ ".png";
             tile_source := img; tile_size := sz;
             tile_xy := (5, 227);
             tile_text := line1 +:+ newline +:+ str_to 30 line2
                          +:+ newline +:+ str_from 30 line2 |}
     ∧ String.length (str_to 30 line2) = 30%nat
     ∧ String.length (str_from 30 line2) = 1%nat
     ∧ str_to 30 line2 +:+ str_from 30 line2 = line2)
  ∧ (String.length label = 30%nat →
     gen_track_chart_item W (label, img)
     = Ok {| tile_name := label +:+ ".png";
             tile_source := img; tile_size := sz;
             tile_xy := (5, 267);
             tile_text := label |})
  ∧ (String.length label = 31%nat →
     gen_track_chart_item W (label, img)
     = Ok {| tile_name := label +:+ ".png";
             tile_source := img; tile_size := sz;
             tile_xy := (5, 247);
             tile_text := str_to 30 label +:+ newline +:+ str_from 30 label |}
     ∧ String.length (str_to 30 label) = 30%nat
     ∧ String.length (str_from 30 label) = 1%nat
     ∧ str_to 30 label +:+ str_from 30 label = label).
Proof.
  intros Hsz H1 H2.
  rewrite (charts_item_two_lines W line1 line2 img sz Hsz H1 H2).
  rewrite (gen_track_chart_item_label W label img sz Hsz).
  unfold len. split; [| split; [| split]].
  - intros ->. reflexivity.
  - intros Hlen. rewrite length_str_to, length_str_from, Hlen.
    split; [reflexivity |]. split; [reflexivity |]. split; [reflexivity |].
    apply str_to_from.
  - intros ->. reflexivity.
  - intros Hlen. rewrite length_str_to, length_str_from, Hlen.
    split; [reflexivity |]. split; [reflexivity |]. split; [reflexivity |].
    apply str_to_from.
Qed.

Lemma label_wrap_boundary_witness :
  (charts_item W_up ("5 plays" +:+ newline +:+ "OK Computer OKNOTOK - Radiohea", png_a)
   = Ok {| tile_name := ("5 plays" +:+ newline +:+ "OK Computer OKNOTOK - Radiohea") +:+ ".png";
           tile_source := png_a; tile_size := (300, 300);
           tile_xy := (5, 247);
           tile_text := "5 plays" +:+ newline +:+ "OK Computer OKNOTOK - Radiohea" |})
  ∧ (charts_item W_up ("5 plays" +:+ newline +:+ "OK Computer OKNOTOK - Radiohead", png_a)
     = Ok {| tile_name := ("5 plays" +:+ newline +:+ "OK Computer OKNOTOK - Radiohead") +:+ ".png";
             tile_source := png_a; tile_size := (300, 300);
             tile_xy := (5, 227);
             tile_text := "5 plays" +:+ newline +:+ str_to 30 "OK Computer OKNOTOK - Radiohead"
                          +:+ newline +:+ str_from 30 "OK Computer OKNOTOK - Radiohead" |}
     ∧ String.length (str_to 30 "OK Computer OKNOTOK - Radiohead") = 30%nat
     ∧ String.length (str_from 30 "OK Computer OKNOTOK - Radiohead") = 1%nat
     ∧ str_to 30 "OK Computer OKNOTOK - Radiohead" +:+ str_from 30 "OK Computer OKNOTOK - Radiohead" = "OK Computer OKNOTOK - Radiohead")
  ∧ (gen_track_chart_item W_up ("Paranoid Android - Radiohead 1", png_a)
     = Ok {| tile_name := "Paranoid Android - Radiohead 1" +:+ ".png";
             tile_source := png_a; tile_size := (300, 300);
             tile_xy := (5, 267);
             tile_text := "Paranoid Android - Radiohead 1" |})
  ∧ (gen_track_chart_item W_up ("Paranoid Android - Radiohead 97", png_a)
     = Ok {| tile_name := "Paranoid Android - Radiohead 97" +:+ ".png";
             tile_source := png_a; tile_size := (300, 300);
             tile_xy := (5, 247);
             tile_text := str_to 30 "Paranoid Android - Radiohead 97" +:+ newline +:+ str_from 30 "Paranoid Android - Radiohead 97" |}
     ∧ String.length (str_to 30 "Paranoid Android - Radiohead 97") = 30%nat
     ∧ String.length (str_from 30 "Paranoid Android - Radiohead 97") = 1%nat
     ∧ str_to 30 "Paranoid Android - Radiohead 97" +:+ str_from 30 "Paranoid Android - Radiohead 97" = "Paranoid Android - Radiohead 97").
Proof.
  pose proof (label_wrap_boundary W_up "5 plays" "OK Computer OKNOTOK - Radiohea" "Paranoid Android - Radiohead 1" png_a (300, 300)
                eq_refl eq_refl eq_refl) as (H30 & _ & T30 & _).
  pose proof (label_wrap_boundary W_up "5 plays" "OK Computer OKNOTOK - Radiohead" "Paranoid Android - Radiohead 97" png_a (300, 300)
                eq_refl eq_refl eq_refl) as (_ & H31 & _ & T31).
  exact (conj (H30 eq_refl) (conj (H31 eq_refl) (conj (T30 eq_refl) (T31 eq_refl)))).
Defined.

(** ** The image fetcher *)

(** C4, as the code has it.  An empty reference is fetched from the
    placeholder in the first place.  A first response with status 200 is
    returned.  A first response with another status is followed by exactly
    one more request, to the placeholder, whose body is returned whatever
    its status.  A request that gets no response raises, the first one
    without any retry. *)
Theorem get_img_fallback W url t :
  let t1 := t ++ [Call_get_img url] in
  let first := get (or_placeholder url) in
  let retry := get NO_IMAGE_PLACEHOLDER in
  (url = "" → first = retry)
  ∧ (∀ r, net W t1 first = Responds r → status r = 200 →
       get_img W url t = (Ok (read r), t1 ++ [Net first]))
  ∧ (∀ r r', net W t1 first = Responds r → status r ≠ 200 →
       net W (t1 ++ [Net first]) retry = Responds r' →
       get_img W url t = (Ok (read r'), t1 ++ [Net first; Net retry]))
  ∧ (∀ r, net W t1 first = Responds r → status r ≠ 200 →
       net W (t1 ++ [Net first]) retry = Fails →
       get_img W url t = (Raise ClientError, t1 ++ [Net first; Net retry]))
  ∧ (net W t1 first = Fails →
       get_img W url t = (Raise ClientError, t1 ++ [Net first])).
Proof.
  intros t1 first retry. subst t1 first retry.
  split; [by intros -> |].
  unfold get_img. run_M.
  split; [| split; [| split]].
  - intros r -> Hr. rewrite Hr. done.
  - intros r r' -> Hr. destruct (Z.eqb_spec (status r) 200); [done |].
    intros ->. by rewrite <- (app_assoc _ [_] [_]).
  - intros r -> Hr. destruct (Z.eqb_spec (status r) 200); [done |].
    intros ->. by rewrite <- (app_assoc _ [_] [_]).
  - intros ->. done.
Qed.

Lemma get_img_fallback_witness :
  get_img W_up "http://img/a.png" []
  = (Ok png_a, [Call_get_img "http://img/a.png"; Net (get "http://img/a.png")])
  ∧ get_img W_404 "" []
    = (Ok error_page, [Call_get_img ""; Net (get NO_IMAGE_PLACEHOLDER);
                       Net (get NO_IMAGE_PLACEHOLDER)])
  ∧ get_img W_404_then_down "http://img/a.png" []
    = (Raise ClientError, [Call_get_img "http://img/a.png"; Net (get "http://img/a.png");
                           Net (get NO_IMAGE_PLACEHOLDER)])
  ∧ get_img W_down "http://img/a.png" []
    = (Raise ClientError, [Call_get_img "http://img/a.png"; Net (get "http://img/a.png")]).
Proof.
  split; [| split; [| split]].
  - apply (proj1 (proj2 (get_img_fallback W_up "http://img/a.png" []))
             {| status := 200; read := png_a; text := listing_page;
                json := JsonOk sample_content |});
      reflexivity.
  - apply (proj1 (proj2 (proj2 (get_img_fallback W_404 "" [])))
             {| status := 404; read := error_page; text := "";
                json := JsonOk sample_content |}
             {| status := 404; read := error_page; text := "";
                json := JsonOk sample_content |});
      [reflexivity | simpl; lia | reflexivity].
  - apply (proj1 (proj2 (proj2 (proj2 (get_img_fallback W_404_then_down "http://img/a.png" []))))
             {| status := 404; read := error_page; text := "";
                json := JsonOk sample_content |});
      [reflexivity | simpl; lia | reflexivity].
  - apply (proj2 (proj2 (proj2 (proj2 (get_img_fallback W_down "http://img/a.png" []))))).
    reflexivity.
Defined.

(** The claim as the specification words it fails twice: a request that
    gets no response is not retried, and a placeholder answered with status
    404 is not raised but returned as the image. *)
Lemma get_img_retry_counterexample :
  ¬ retries_once_then_raises W_down "http://img/a.png" []
  ∧ ¬ retries_once_then_raises W_404 "http://img/a.png" [].
Proof.
  split.
  - intros H. destruct H as [Htrace _]; [exact I |]. discriminate Htrace.
  - intros H. destruct H as [_ Hraise]; [simpl; lia |].
    destruct Hraise as [e He]; [simpl; lia |]. discriminate He.
Qed.

(** ** The artist artwork resolver *)

Lemma page_numbers_spec amount :
  page_numbers amount = map Z.of_nat (seq 1 (Z.to_nat (ceil_div amount 50))).
Proof. unfold page_numbers, range_from1. do 3 f_equal. lia. Qed.

Lemma image_srcs_ok srcs : image_srcs (map ImgSrc srcs) = Ok (map upgrade srcs).
Proof. induction srcs as [|src srcs IH]; simpl; [done |]. by rewrite IH. Qed.

(** The page requests are all sent, in page order, whatever they return. *)
Lemma gather_fetch_text_trace W url preset pages : ∀ t,
  (gather (map (λ i, fetch_text W url (page_params preset i)) pages) t).2
  = t ++ map (λ i, Net {| req_url := url; req_params := page_params preset i |}) pages.
Proof.
  induction pages as [|i pages IH]; intros t; simpl; [by rewrite app_nil_r |].
  unfold fetch_text at 1. run_M.
  destruct (net W t _) as [r|]; simpl.
  - specialize (IH (t ++ [Net {| req_url := url; req_params := page_params preset i |}])).
    destruct (gather _ _) as [[l|e] t2]; simpl in *; rewrite IH, <- app_assoc; done.
  - rewrite IH, <- app_assoc. done.
Qed.

(** When every page is answered, the texts come back in page order. *)
Lemma gather_fetch_text_ok W url preset pages : ∀ t texts,
  Forall2 (λ o txt, ∃ r, o = Responds r ∧ text r = txt)
    (page_outcomes W (map (λ i, {| req_url := url; req_params := page_params preset i |}) pages) t)
    texts →
  (gather (map (λ i, fetch_text W url (page_params preset i)) pages) t).1 = Ok texts.
Proof.
  induction pages as [|i pages IH]; intros t texts Hall; simpl in *.
  - by inversion Hall.
  - inversion Hall as [|o txt os txts (r & Ho & Htxt) Hrest]; subst.
    unfold fetch_text at 1. run_M. rewrite Ho. simpl.
    specialize (IH _ _ Hrest).
    destruct (gather _ _) as [[l|e] t2]; simpl in *; congruence.
Qed.

(** *** The substitution on a thumbnail address *)

Lemma str_app_assoc a b c : (a +:+ b) +:+ c = a +:+ (b +:+ c).
Proof.
  induction a as [|x a IH]; [done |].
  change (String x ((a +:+ b) +:+ c) = String x (a +:+ (b +:+ c))). by rewrite IH.
Qed.

Lemma str_length_app a b :
  String.length (a +:+ b) = (String.length a + String.length b)%nat.
Proof.
  induction a as [|x a IH]; [done |].
  change (S (String.length (a +:+ b)) = S (String.length a + String.length b)).
  by rewrite IH.
Qed.

(** Whether [s] starts a string depends on as many characters only as
    [s] has. *)
Lemma prefix_app_long s : ∀ a b,
  (String.length s ≤ String.length a)%nat →
  String.prefix s (a +:+ b) = String.prefix s a.
Proof.
  induction s as [|x s IH]; intros a b Hlen; [by destruct a, b |].
  destruct a as [|y a]; [simpl in Hlen; lia |].
  change (String.prefix (String x s) (String y (a +:+ b))
          = String.prefix (String x s) (String y a)).
  simpl. destruct (ascii_dec x y); [| done]. apply IH. simpl in Hlen. lia.
Qed.

Lemma replace_from_absent old new : ∀ s,
  occurs old s = false → replace_from old new 0 s = s.
Proof.
  induction s as [|c s IH]; [done |].
  cbn [occurs replace_from]. intros [-> Hs]%orb_false_iff. by rewrite IH.
Qed.

(** The leftmost [/avatar70s/] of an address becomes [/300x300/]; what
    stands before it is kept, what follows is upgraded in turn. *)
Lemma upgrade_first before after :
  occurs "/avatar70s/" (before +:+ "/avatar70s") = false →
  upgrade (before +:+ "/avatar70s/" +:+ after)
  = before +:+ "/300x300/" +:+ upgrade after.
Proof.
  unfold upgrade, replace. induction before as [|c before IH]; intros Hocc.
  - by destruct after.
  - change (occurs "/avatar70s/" (String c (before +:+ "/avatar70s")) = false) in Hocc.
    cbn [occurs] in Hocc. apply orb_false_iff in Hocc as [Hhere Hlater].
    change (replace_from "/avatar70s/" "/300x300/" 0
              (String c (before +:+ "/avatar70s/" +:+ after))
            = String c (before +:+ "/300x300/"
                        +:+ replace_from "/avatar70s/" "/300x300/" 0 after)).
    cbn [replace_from].
    replace (String.prefix "/avatar70s/" (String c (before +:+ "/avatar70s/" +:+ after)))
      with false; [by rewrite IH |].
    symmetry. etrans; [| exact Hhere].
    assert (String c (before +:+ "/avatar70s/" +:+ after)
            = String c (before +:+ "/avatar70s") +:+ ("/" +:+ after)) as ->.
    { change (String c (before +:+ "/avatar70s") +:+ ("/" +:+ after))
        with (String c ((before +:+ "/avatar70s") +:+ ("/" +:+ after))).
      by rewrite str_app_assoc. }
    apply prefix_app_long.
    simpl. rewrite str_length_app. simpl. lia.
Qed.

(** *** The collecting loop *)

(** Pages are appended whole and in order; page [k + 1] is read only while
    the running total is below [amount], and the loop ends with the pages
    or with the first total that reaches [amount]. *)
Lemma collect_images_pages W amount texts srcss :
  Forall2 (λ txt srcs, chartlist_image W txt = map ImgSrc srcs) texts srcss →
  ∀ images, ∃ k,
    (k ≤ length srcss)%nat
    ∧ collect_images W texts images amount
      = Ok (images ++ concat (take k (map (map upgrade) srcss)))
    ∧ (∀ j, (j < k)%nat →
         Z.of_nat (length (images ++ concat (take j (map (map upgrade) srcss)))) < amount)
    ∧ (k = length srcss
       ∨ amount ≤ Z.of_nat (length (images ++ concat (take k (map (map upgrade) srcss))))).
Proof.
  induction 1 as [|txt srcs texts srcss Hcells _ IH]; intros images.
  - exists 0%nat. simpl. rewrite app_nil_r.
    split; [done |]. split; [done |]. split; [lia | by left].
  - simpl. destruct (Z.geb_spec (Z.of_nat (length images)) amount) as [Hge|Hlt].
    + exists 0%nat. simpl. rewrite app_nil_r.
      split; [lia |]. split; [done |]. split; [lia | right; lia].
    + rewrite Hcells, image_srcs_ok. unfold bind, result_bind.
      destruct (IH (images ++ map upgrade srcs)) as (k & Hk & -> & Hbelow & Hend).
      exists (S k). simpl. rewrite !(assoc_L (++)).
      split; [lia |]. split; [done |]. split.
      * intros [|j] Hj; simpl; [rewrite app_nil_r; lia |].
        rewrite (assoc_L (++)). apply Hbelow. lia.
      * destruct Hend as [->|Hend]; [by left | by right].
Qed.

Lemma scrape_unfold W username period preset amount t :
  dict_get period_format_map period = Some preset →
  scrape_artists_for_chart W username period amount t
  = (responses <- gather (map (λ i, fetch_text W (artists_url username) (page_params preset i))
                            (page_numbers amount)) ;;
     lift (collect_images W responses [] amount)) t.
Proof.
  intros Hperiod. unfold scrape_artists_for_chart.
  destruct (page_numbers amount) as [|i pages]; [done |].
  rewrite Hperiod. done.
Qed.

(** C7, as the code has it.  For a period of [period_format_map] the
    resolver sends exactly the requests for pages 1 to [ceil(amount / 50)],
    in page order.  When every page is answered and every image cell has a
    source, it returns the upgraded URLs of the first [k] pages, whole and
    in page order, where [k] is the first number of pages whose URLs
    together number [amount] or more, or the number of pages when they
    never do: each page before the [k]th was read with fewer than [amount]
    URLs gathered, no page is read after [amount] is reached, and nothing
    is cut off the end.  The result is thus a prefix of the concatenation
    of all pages that agrees with it on the first [amount] entries.  The
    upgrade turns the leftmost [/avatar70s/] of an address into
    [/300x300/], goes on behind it, and leaves an address without
    [/avatar70s/] as it is. *)
Theorem scrape_pages_in_order W username period preset amount t :
  dict_get period_format_map period = Some preset →
  let pages := page_numbers amount in
  let reqs := map (page_request username preset) pages in
  pages = map Z.of_nat (seq 1 (Z.to_nat (ceil_div amount 50)))
  ∧ (scrape_artists_for_chart W username period amount t).2 = t ++ map Net reqs
  ∧ (∀ texts srcss,
      Forall2 (λ o txt, ∃ r, o = Responds r ∧ text r = txt) (page_outcomes W reqs t) texts →
      Forall2 (λ txt srcs, chartlist_image W txt = map ImgSrc srcs) texts srcss →
      let upgraded := map (map upgrade) srcss in
      let full := concat upgraded in
      ∃ images k,
        (scrape_artists_for_chart W username period amount t).1 = Ok images
        ∧ (k ≤ length upgraded)%nat
        ∧ images = concat (take k upgraded)
        ∧ (∀ j, (j < k)%nat → Z.of_nat (length (concat (take j upgraded))) < amount)
        ∧ (k = length upgraded ∨ amount ≤ Z.of_nat (length images))
        ∧ images `prefix_of` full
        ∧ (amount ≤ Z.of_nat (length images) ∨ images = full)
        ∧ take (Z.to_nat amount) images = take (Z.to_nat amount) full)
  ∧ (∀ before after,
      occurs "/avatar70s/" (before +:+ "/avatar70s") = false →
      upgrade (before +:+ "/avatar70s/" +:+ after)
      = before +:+ "/300x300/" +:+ upgrade after)
  ∧ (∀ src, occurs "/avatar70s/" src = false → upgrade src = src).
Proof.
  intros Hperiod pages reqs. subst pages reqs.
  split; [apply page_numbers_spec |].
  rewrite (scrape_unfold W username period preset amount t Hperiod).
  unfold page_request. rewrite map_map.
  pose proof (gather_fetch_text_trace W (artists_url username) preset
                (page_numbers amount) t) as Htrace.
  split; [| split; [| split; [apply upgrade_first | apply replace_from_absent]]].
  - unfold bind, M_bind, lift.
    destruct (gather _ t) as [[l|e] t2]; simpl in *; by rewrite Htrace.
  - intros texts srcss Htexts Hcells.
    set (upgraded := map (map upgrade) srcss). set (full := concat upgraded).
    pose proof (gather_fetch_text_ok W (artists_url username) preset
                  (page_numbers amount) t texts) as Hok.
    specialize (Hok Htexts).
    unfold bind, M_bind, lift.
    destruct (gather _ t) as [[l|e] t2]; simpl in *; [| done].
    injection Hok as ->.
    destruct (collect_images_pages W amount texts srcss Hcells [])
      as (k & Hk & -> & Hbelow & Hend).
    simpl in *. fold upgraded in Hbelow, Hend |- *.
    assert (Hpre : concat (take k upgraded) `prefix_of` full).
    { exists (concat (drop k upgraded)). subst full.
      by rewrite <- concat_app, take_drop. }
    assert (Hwhole : k = length upgraded → concat (take k upgraded) = full).
    { intros ->. subst full. by rewrite firstn_all. }
    exists (concat (take k upgraded)), k.
    split; [done |]. split; [subst upgraded; by rewrite length_map |].
    split; [done |]. split; [done |].
    split; [destruct Hend as [->|Hend]; [left; subst upgraded; by rewrite length_map | by right] |].
    split; [done |].
    split; [destruct Hend as [Hend|Hend]; [right; apply Hwhole; subst upgraded; by rewrite length_map | by left] |].
    destruct Hend as [Hend|Hend].
    + rewrite Hwhole; [done |]. subst upgraded. by rewrite length_map.
    + destruct Hpre as [rest ->]. rewrite take_app_le by lia. done.
Qed.

Lemma scrape_pages_in_order_witness :
  page_numbers 51 = map Z.of_nat (seq 1 (Z.to_nat (ceil_div 51 50)))
  ∧ (scrape_artists_for_chart W_up "alice" "overall" 51 []).2
    = [] ++ map Net (map (page_request "alice" "ALL") (page_numbers 51))
  ∧ (∃ images k,
      (scrape_artists_for_chart W_up "alice" "overall" 51 []).1 = Ok images
      ∧ (k ≤ length (map (map upgrade) [thumbnails; thumbnails]))%nat
      ∧ images = concat (take k (map (map upgrade) [thumbnails; thumbnails]))
      ∧ (∀ j, (j < k)%nat →
           Z.of_nat (length (concat (take j (map (map upgrade) [thumbnails; thumbnails])))) < 51)
      ∧ (k = length (map (map upgrade) [thumbnails; thumbnails])
         ∨ 51 ≤ Z.of_nat (length images))
      ∧ images `prefix_of` concat (map (map upgrade) [thumbnails; thumbnails])
      ∧ (51 ≤ Z.of_nat (length images)
         ∨ images = concat (map (map upgrade) [thumbnails; thumbnails]))
      ∧ take (Z.to_nat 51) images
        = take (Z.to_nat 51) (concat (map (map upgrade) [thumbnails; thumbnails])))
  ∧ upgrade ("https://lastfm.freetls.fastly.net/i/u" +:+ "/avatar70s/" +:+ "r1.jpg")
    = "https://lastfm.freetls.fastly.net/i/u" +:+ "/300x300/" +:+ upgrade "r1.jpg"
  ∧ upgrade "r1.jpg" = "r1.jpg".
Proof.
  pose proof (scrape_pages_in_order W_up "alice" "overall" "ALL" 51 [] eq_refl)
    as (Hpages & Htrace & Hresult & Hfirst & Habsent).
  split; [exact Hpages |]. split; [exact Htrace |]. split; [| split].
  - apply (Hresult [listing_page; listing_page] [thumbnails; thumbnails]).
    + constructor; [| constructor; [| constructor]]; eexists; split; reflexivity.
    + constructor; [| constructor; [| constructor]]; reflexivity.
  - apply Hfirst. reflexivity.
  - apply Habsent. reflexivity.
Defined.

(** Asked for one artist, the resolver hands back both URLs of the page it
    read: the result is not cut down to [amount] entries. *)
Lemma scrape_not_truncated_counterexample :
  page_outcomes W_up (map (page_request "alice" "ALL") (page_numbers 1)) []
  = [answer 200 png_a listing_page]
  ∧ chartlist_image W_up listing_page = map ImgSrc thumbnails
  ∧ (scrape_artists_for_chart W_up "alice" "overall" 1 []).1 = Ok (map upgrade thumbnails)
  ∧ ¬ returns_truncated W_up "alice" "overall" 1 [] (map upgrade thumbnails).
Proof.
  split; [reflexivity |]. split; [reflexivity |]. split; [reflexivity |].
  unfold returns_truncated. vm_compute. discriminate.
Qed.

(** ** The grid: tiles are pasted row-major, in the order given *)

Lemma ceil_div_covers len w : 1 ≤ w → len ≤ w * ceil_div len w.
Proof.
  intros Hw. unfold ceil_div.
  assert (Hpos : 0 < w) by lia.
  pose proof (Z.mul_div_le (- len) w Hpos). lia.
Qed.

Lemma paste_img_spec st img :
  pastes (v_final (paste_img st img))
  = pastes (v_final st)
    ++ [(img, (v_x st, v_y st, v_x st + (tile_size img).1, v_y st + (tile_size img).2))]
  ∧ v_x (paste_img st img) = v_x st + 300
  ∧ v_y (paste_img st img) = v_y st.
Proof. unfold paste_img. by destruct (tile_size img). Qed.

Lemma foldl_paste_img row : ∀ st,
  pastes (v_final (foldl paste_img st row))
  = pastes (v_final st)
    ++ imap (λ c tl, (tl, (v_x st + 300 * Z.of_nat c, v_y st,
                           v_x st + 300 * Z.of_nat c + (tile_size tl).1,
                           v_y st + (tile_size tl).2))) row
  ∧ v_y (foldl paste_img st row) = v_y st.
Proof.
  induction row as [|img row IH]; intros st; simpl.
  - by rewrite app_nil_r.
  - destruct (IH (paste_img st img)) as [-> ->].
    destruct (paste_img_spec st img) as (-> & -> & ->).
    split; [| done]. rewrite <- app_assoc. simpl. f_equal.
    rewrite Z.add_0_r. f_equal.
    apply imap_ext. intros c tl _. simpl.
    by replace (v_x st + 300 * Z.of_nat (S c)) with (v_x st + 300 + 300 * Z.of_nat c) by lia.
Qed.

Lemma paste_chunk_spec st row :
  pastes (v_final (paste_chunk st row))
  = pastes (v_final st)
    ++ imap (λ c tl, (tl, (300 * Z.of_nat c, v_y st,
                           300 * Z.of_nat c + (tile_size tl).1,
                           v_y st + (tile_size tl).2))) row
  ∧ v_y (paste_chunk st row) = v_y st + 300.
Proof.
  unfold paste_chunk. simpl.
  destruct (foldl_paste_img row
              {| v_final := v_final st; v_x := 0; v_y := v_y st;
                 v_w := v_w st; v_h := v_h st |}) as [-> ->].
  done.
Qed.

(** A row of at most [n] tiles starting at tile number [r * n] lands where
    [place] says. *)
Lemma row_place (n r : nat) (row : list tile) :
  (0 < n)%nat → (length row ≤ n)%nat →
  imap (λ c tl, (tl, (300 * Z.of_nat c, 300 * Z.of_nat r,
                      300 * Z.of_nat c + (tile_size tl).1,
                      300 * Z.of_nat r + (tile_size tl).2))) row
  = imap (λ c tl, place (Z.of_nat n) (r * n + c) tl) row.
Proof.
  intros Hn Hlen. apply imap_ext. intros c tl Hc.
  apply lookup_lt_Some in Hc. unfold place.
  replace (Z.of_nat (r * n + c)) with (Z.of_nat c + Z.of_nat r * Z.of_nat n) by lia.
  rewrite Z.mod_add, Z.div_add by lia.
  rewrite Z.mod_small, Z.div_small by lia. simpl.
  by rewrite Z.add_0_l.
Qed.

Lemma foldl_paste_chunk (n : nat) (tiles : list tile) : (0 < n)%nat →
  ∀ m r st, v_y st = 300 * Z.of_nat r →
  pastes (v_final (foldl paste_chunk st
                     (map (λ k, take n (drop (k * n) tiles)) (seq r m))))
  = pastes (v_final st)
    ++ imap (λ j tl, place (Z.of_nat n) (r * n + j) tl) (take (m * n) (drop (r * n) tiles)).
Proof.
  intros Hn. induction m as [|m IH]; intros r st Hy; simpl.
  - by rewrite app_nil_r.
  - destruct (paste_chunk_spec st (take n (drop (r * n) tiles))) as [Hp Hy'].
    rewrite (IH (S r)) by (rewrite Hy', Hy; lia).
    rewrite Hp, Hy, <- app_assoc. f_equal.
    rewrite (row_place n r) by (rewrite ?length_take; lia).
    rewrite <- (take_take_drop (drop (r * n) tiles) n (m * n)).
    rewrite imap_app, drop_drop. f_equal.
    destruct (decide (n ≤ length (drop (r * n) tiles))%nat) as [Hfull|Hshort].
    + rewrite length_take, Nat.min_l by done.
      replace (S r * n)%nat with (r * n + n)%nat by lia.
      apply imap_ext. intros j tl _. simpl. f_equal. lia.
    + rewrite length_drop in Hshort.
      rewrite (drop_ge tiles (S r * n)), (drop_ge tiles (r * n + n)) by lia.
      by rewrite !take_nil.
Qed.

(** The canvas after the loops holds the tiles in the order of [data],
    tile [k] in column [k mod w] of row [k / w]. *)
Lemma compose_pastes data w h final :
  compose data w h = Ok final →
  1 ≤ w ∧ 0 ≤ h ∧ pastes final = imap (place w) data.
Proof.
  unfold compose, Image_new. simpl.
  destruct (Z.ltb_spec (300 * w) 0); [done |].
  destruct (Z.ltb_spec (300 * h) 0); [done |]. simpl.
  unfold chunks, range_step.
  destruct (Z.eqb_spec w 0) as [|Hw0]; [done |].
  destruct (Z.ltb_spec w 0) as [|Hw1]; [lia |]. simpl.
  intros [= <-]. split; [lia |]. split; [lia |].
  set (n := Z.to_nat w). set (m := Z.to_nat (ceil_div (Z.of_nat (length data)) w)).
  assert (Hn : (0 < n)%nat) by lia.
  rewrite map_map.
  rewrite (map_ext _ (λ k, take n (drop (k * n) data))).
  2:{ intros k. unfold slice. do 2 f_equal. lia. }
  rewrite (foldl_paste_chunk n data Hn m 0%nat) by done. simpl.
  rewrite drop_0, take_ge.
  2:{ pose proof (ceil_div_covers (Z.of_nat (length data)) w ltac:(lia)) as Hc.
      assert (0 ≤ ceil_div (Z.of_nat (length data)) w) by nia.
      apply Nat2Z.inj_le. rewrite Nat2Z.inj_mul. subst m n.
      rewrite !Z2Nat.id by lia. lia. }
  apply imap_ext. intros j tl _. by replace (Z.of_nat n) with w by lia.
Qed.

Lemma pastes_downsize final : pastes (downsize final) = pastes final.
Proof.
  unfold downsize. destruct (size final) as [w h].
  by destruct ((w >? 2100) && (h >? 2100)).
Qed.

Lemma create_graph_pastes data w h f :
  create_graph data w h = Ok f →
  1 ≤ w ∧ 0 ≤ h ∧ file_format f = "webp"
  ∧ pastes (file_image f) = imap (place w) data.
Proof.
  unfold create_graph, bind, result_bind.
  destruct (compose data w h) as [final|e] eqn:Hc; [| done].
  apply compose_pastes in Hc as (Hw & Hh & Hp).
  intros (-> & _)%save_webp_inv. simpl. by rewrite pastes_downsize.
Qed.

(** ** Rendering keeps one tile per item, in order *)

Lemma for_each_Forall2 {A B} (f : A → result B) l : ∀ ys,
  for_each f l = Ok ys → Forall2 (λ x y, f x = Ok y) l ys.
Proof.
  induction l as [|x l IH]; simpl; intros ys.
  - intros [= <-]. constructor.
  - destruct (f x) as [y|e] eqn:Hx; [| done].
    destruct (for_each f l) as [ys'|e]; [| done].
    intros [= <-]. constructor; [done | by apply IH].
Qed.

Lemma Forall2_for_each {A B} (f : A → result B) l ys :
  Forall2 (λ x y, f x = Ok y) l ys → for_each f l = Ok ys.
Proof. induction 1 as [|x y l ys Hx _ IH]; simpl; [done |]. by rewrite Hx, IH. Qed.

Lemma charts_item_tile_of W item tl : charts_item W item = Ok tl → tile_of item tl.
Proof.
  unfold charts_item, bind, result_bind. destruct (image_size W item.2); [| done].
  destruct (getitem (split_nl item.1) 1) as [texts1|]; [| done].
  destruct (len texts1 >? 30).
  - destruct (getitem (split_nl item.1) 0); [| done]. by intros [= <-].
  - by intros [= <-].
Qed.

Lemma gen_track_chart_item_tile_of W item tl :
  gen_track_chart_item W item = Ok tl → tile_of item tl.
Proof.
  unfold gen_track_chart_item. destruct (image_size W item.2); [| done].
  destruct (len item.1 >? 30); by intros [= <-].
Qed.

Lemma charts_shows W chart w h f :
  charts W chart w h = Ok f → 1 ≤ w ∧ 0 ≤ h ∧ shows chart w f.
Proof.
  unfold charts, bind, result_bind.
  destruct (for_each (charts_item W) chart) as [tiles|e] eqn:Htiles; [| done].
  intros (Hw & Hh & _ & Hp)%create_graph_pastes.
  split; [done |]. split; [done |]. exists tiles. split; [| done].
  apply for_each_Forall2 in Htiles.
  eapply Forall2_impl; [exact Htiles |]. intros item tl. apply charts_item_tile_of.
Qed.

Lemma gen_track_chart_shows W chart w h f :
  gen_track_chart W chart w h = Ok f → 1 ≤ w ∧ 0 ≤ h ∧ shows chart w f.
Proof.
  unfold gen_track_chart, bind, result_bind.
  destruct (for_each (gen_track_chart_item W) chart) as [tiles|e] eqn:Htiles; [| done].
  intros (Hw & Hh & _ & Hp)%create_graph_pastes.
  split; [done |]. split; [done |]. exists tiles. split; [| done].
  apply for_each_Forall2 in Htiles.
  eapply Forall2_impl; [exact Htiles |]. intros item tl. apply gen_track_chart_item_tile_of.
Qed.

(** ** The request-scoped cache *)

Lemma calls_app t1 t2 : calls (t1 ++ t2) = calls t1 ++ calls t2.
Proof. apply omap_app. Qed.

Lemma get_img_calls W url t :
  ∃ evs, (get_img W url t).2 = t ++ evs ∧ calls evs = [url].
Proof.
  unfold get_img. run_M.
  destruct (net W (t ++ [Call_get_img url]) _) as [r|]; simpl.
  - destruct (status r =? 200); simpl.
    + exists [Call_get_img url; Net (get (or_placeholder url))].
      by rewrite <- app_assoc.
    + exists [Call_get_img url; Net (get (or_placeholder url)); Net (get NO_IMAGE_PLACEHOLDER)].
      split; [| done].
      destruct (net W _ _); simpl; by rewrite <- !app_assoc.
  - exists [Call_get_img url; Net (get (or_placeholder url))].
    by rewrite <- app_assoc.
Qed.

Lemma cached_img_spec W ref (cd : gmap string bytes) t b cd' t' :
  cached_img W ref cd t = (Ok (b, cd'), t') →
  (cd !! ref = Some b ∧ cd' = cd ∧ t' = t)
  ∨ (cd !! ref = None ∧ cd' = <[ref := b]> cd
     ∧ ∃ evs, t' = t ++ evs ∧ calls evs = [ref]).
Proof.
  unfold cached_img. destruct (cd !! ref) as [b0|] eqn:Hcd.
  - intros [= <- <- <-]. by left.
  - unfold bind, M_bind, ret, M_ret.
    destruct (get_img_calls W ref t) as (evs & Ht & Hcalls).
    destruct (get_img W ref t) as [[b1|e] t1]; [| done].
    intros [= <- <- <-]. right. simpl in Ht. eauto.
Qed.

(** Resolving a list of references calls [get_img] once for each
    reference that the cache does not hold yet, and never twice for the same
    one; every reference ends up in the cache under the bytes handed to its
    items. *)
Lemma resolve_all_spec W refs : ∀ (cd : gmap string bytes) t imgs cd' t',
  resolve_all W refs cd t = (Ok (imgs, cd'), t') →
  ∃ evs, t' = t ++ evs
    ∧ NoDup (calls evs)
    ∧ (∀ r, r ∈ calls evs ↔ r ∈ refs ∧ cd !! r = None)
    ∧ cd ⊆ cd'
    ∧ Forall2 (λ r b, cd' !! r = Some b) refs imgs.
Proof.
  induction refs as [|ref refs IH]; intros cd t imgs cd' t'; simpl.
  - intros [= <- <- <-]. exists []. rewrite app_nil_r.
    split; [done |]. split; [constructor |].
    split; [intros r; split; [by intros ?%elem_of_nil | by intros [?%elem_of_nil _]] |].
    split; [done | constructor].
  - unfold bind, M_bind, ret, M_ret.
    destruct (cached_img W ref cd t) as [[[b cd1]|e] t1] eqn:Hc; [| done]. simpl.
    destruct (resolve_all W refs cd1 t1) as [[[imgs1 cd2]|e] t2] eqn:Hr; [| done].
    intros [= <- <- <-]. simpl.
    destruct (IH _ _ _ _ _ Hr) as (evs2 & -> & Hnd & Hin & Hsub & Hall).
    apply cached_img_spec in Hc as [(Hhit & -> & ->)|(Hmiss & -> & evs1 & -> & Hcalls)].
    + exists evs2. split; [done |]. split; [done |]. split; [| split].
      * intros r. rewrite Hin, elem_of_cons. split; [intros [? ?]; by split; [right |] |].
        intros [[->|?] Hnone]; [congruence | done].
      * done.
      * constructor; [| done]. by eapply lookup_weaken.
    + exists (evs1 ++ evs2). rewrite <- app_assoc. split; [done |].
      rewrite calls_app, Hcalls. simpl. split; [| split; [| split]].
      * constructor; [| done]. rewrite Hin, lookup_insert_None. by intros (_ & _ & ?).
      * intros r. rewrite !elem_of_cons, Hin, lookup_insert_None. split.
        -- intros [->|(? & ? & ?)]; [by split; [left |] | by split; [right |]].
        -- intros [[->|?] Hnone]; [by left |].
           destruct (decide (ref = r)) as [->|]; [by left | right; done].
      * etrans; [| exact Hsub]. by apply insert_subseteq.
      * constructor; [| done].
        eapply lookup_weaken; [| exact Hsub]. apply lookup_insert_eq.
Qed.

(** ** The loops of [create_chart] *)

Lemma albums_loop_ok W albums : ∀ chart cd t chart' t',
  albums_loop W albums chart cd t = (Ok chart', t') →
  ∃ refs imgs cd',
    Forall2 (λ album ref, album_image album !! 3%nat = Some ref) albums refs
    ∧ resolve_all W refs cd t = (Ok (imgs, cd'), t')
    ∧ chart' = chart ++ zip (map album_label albums) imgs.
Proof.
  induction albums as [|album albums IH]; intros chart cd t chart' t'; simpl.
  - intros [= <- <-]. exists [], [], cd. by rewrite app_nil_r.
  - unfold bind, M_bind, lift, getitem.
    destruct (album_image album !! 3%nat) as [ref|] eqn:Href; [| done].
    destruct (cached_img W ref cd t) as [[[b cd1]|e] t1] eqn:Hc; [| done]. simpl.
    intros (refs & imgs & cd' & Hrefs & Hres & ->)%IH.
    exists (ref :: refs), (b :: imgs), cd'. split; [by constructor |].
    simpl. unfold bind, M_bind, ret, M_ret. rewrite Hc. simpl. rewrite Hres.
    split; [done |]. by rewrite <- app_assoc.
Qed.

Lemma artists_loop_ok W scraped iterator : ∀ i chart cd t chart' t',
  artists_loop W scraped i iterator chart cd t = (Ok chart', t') →
  ∃ imgs cd',
    length (take (length iterator) (drop i scraped)) = length iterator
    ∧ resolve_all W (take (length iterator) (drop i scraped)) cd t = (Ok (imgs, cd'), t')
    ∧ chart' = chart ++ zip (map artist_label iterator) imgs.
Proof.
  induction iterator as [|artist iterator IH]; intros i chart cd t chart' t'; simpl.
  - intros [= <- <-]. exists [], cd. by rewrite app_nil_r.
  - unfold bind, M_bind, lift, getitem.
    destruct (scraped !! i) as [ref|] eqn:Href; [| done].
    destruct (cached_img W ref cd t) as [[[b cd1]|e] t1] eqn:Hc; [| done]. simpl.
    intros (imgs & cd' & Hlen & Hres & ->)%IH.
    rewrite (drop_S _ _ _ Href). simpl.
    exists (b :: imgs), cd'. split; [by rewrite Hlen |].
    unfold bind, M_bind, ret, M_ret. rewrite Hc. simpl. rewrite Hres.
    split; [done |]. by rewrite <- app_assoc.
Qed.

Lemma tracks_loop_ok W tracks width height : ∀ chart cd img t img' t',
  tracks_loop W tracks chart cd img width height t = (Ok img', t') →
  ∃ refs imgs cd',
    Forall2 (λ track ref, track_image track !! 3%nat = Some ref) tracks refs
    ∧ resolve_all W refs cd t = (Ok (imgs, cd'), t')
    ∧ (tracks = [] ∧ img' = img
       ∨ ∃ f, img' = Some f
           ∧ gen_track_chart W (chart ++ zip (map track_label tracks) imgs) width height
             = Ok f).
Proof.
  induction tracks as [|track tracks IH]; intros chart cd img t img' t'; simpl.
  - intros [= <- <-]. exists [], [], cd. split; [constructor |]. split; [done |]. by left.
  - unfold bind, M_bind, lift, getitem.
    destruct (track_image track !! 3%nat) as [ref|] eqn:Href; [| done].
    destruct (cached_img W ref cd t) as [[[b cd1]|e] t1] eqn:Hc; [| done]. simpl.
    destruct (gen_track_chart W (chart ++ [(track_label track, b)]) width height)
      as [f1|e] eqn:Hf1; [| done].
    intros (refs & imgs & cd' & Hrefs & Hres & Himg)%IH.
    exists (ref :: refs), (b :: imgs), cd'. split; [by constructor |].
    simpl. unfold bind, M_bind, ret, M_ret. rewrite Hc. simpl. rewrite Hres.
    split; [done |]. right.
    destruct Himg as [[-> ->]|(f & -> & Hf)].
    + exists f1. by destruct imgs.
    + exists f. by rewrite <- app_assoc in Hf.
Qed.

(** The resolver adds requests to the trace, and no call of [get_img]. *)
Lemma gather_fetch_text_calls W url params_of pages : ∀ t,
  ∃ evs, (gather (map (λ i : Z, fetch_text W url (params_of i)) pages) t).2 = t ++ evs
       ∧ calls evs = [].
Proof.
  induction pages as [|i pages IH]; intros t; simpl.
  - exists []. by rewrite app_nil_r.
  - unfold fetch_text at 1. run_M.
    destruct (IH (t ++ [Net {| req_url := url; req_params := params_of i |}]))
      as (evs & Hevs & Hcalls).
    exists (Net {| req_url := url; req_params := params_of i |} :: evs).
    split; [| done].
    destruct (net W t _) as [r|]; simpl.
    + destruct (gather _ _) as [[l|e] t2]; simpl in *; by rewrite Hevs, <- app_assoc.
    + by rewrite Hevs, <- app_assoc.
Qed.

Lemma scrape_calls W username period amount t :
  ∃ evs, (scrape_artists_for_chart W username period amount t).2 = t ++ evs
       ∧ calls evs = [].
Proof.
  unfold scrape_artists_for_chart.
  assert (Hg : ∀ pages preset,
    ∃ evs, ((responses <- gather (map (λ i, fetch_text W (artists_url username)
                                               (page_params preset i)) pages) ;;
             lift (collect_images W responses [] amount)) t).2 = t ++ evs
           ∧ calls evs = []).
  { intros pages preset.
    destruct (gather_fetch_text_calls W (artists_url username) (page_params preset) pages t)
      as (evs & Hevs & Hcalls).
    exists evs. split; [| done]. unfold bind, M_bind, lift.
    by destruct (gather _ t) as [[l|e] t2]. }
  destruct (page_numbers amount) as [|i pages] eqn:Hpages.
  - apply (Hg [] "").
  - destruct (dict_get period_format_map period) as [preset|].
    + apply (Hg (i :: pages) preset).
    + exists []. by rewrite app_nil_r.
Qed.

(** ** A request that returns *)

Lemma slice_to_nonneg {A} (l : list A) n : 0 ≤ n → slice_to l n = take (Z.to_nat n) l.
Proof. intros Hn. unfold slice_to. by destruct (Z.leb_spec 0 n); [| lia]. Qed.

Lemma map_take {A B} (f : A → B) n l : map f (take n l) = take n (map f l).
Proof. revert n. induction l as [|x l IH]; intros [|n]; simpl; by rewrite ?IH. Qed.

Lemma length_map' {A B} (f : A → B) l : length (map f l) = length l.
Proof. induction l; simpl; by f_equal. Qed.

(** What a successful run of [create_chart] went through: the provider
    reported [labels]; the references [refs] of the items kept by the slice
    were resolved through an empty cache, after events [evs0] that contain
    no call of [get_img]; the returned file shows the kept labels, each with
    the bytes resolved for it, as a grid [width] tiles wide. *)
Lemma create_chart_ok W data method height width period username t f t' :
  create_chart W data method height width period username t = (Ok f, t') →
  ∃ labels refs imgs cd' evs0,
    ranked_labels data method = Some labels
    ∧ references W data method height width period username t refs
    ∧ calls evs0 = []
    ∧ resolve_all W refs ∅ (t ++ evs0) = (Ok (imgs, cd'), t')
    ∧ 1 ≤ width ∧ 0 ≤ height
    ∧ length refs = length (take (Z.to_nat (width * height)) labels)
    ∧ shows (zip (take (Z.to_nat (width * height)) labels) imgs) width f.
Proof.
  unfold create_chart, ranked_labels, references.
  destruct (decide (method = "user.gettopalbums")) as [_|_];
    [| destruct (decide (method = "user.gettopartists")) as [_|_];
       [| destruct (decide (method = "user.getrecenttracks")) as [_|_]; [| done]]].
  - (* albums *)
    unfold bind, M_bind, lift at 1, container.
    destruct (topalbums_album data) as [albums|]; [| done].
    destruct (albums_loop W _ [] ∅ t) as [[chart|e] t1] eqn:Hloop; [| done].
    unfold lift.
    destruct (charts W chart width height) as [f'|e] eqn:Hcharts; [| done].
    intros [= <- <-].
    apply charts_shows in Hcharts as (Hw & Hh & Hshows).
    apply albums_loop_ok in Hloop as (refs & imgs & cd' & Hrefs & Hres & ->).
    rewrite slice_to_nonneg in * by nia.
    exists (map album_label albums), refs, imgs, cd', [].
    rewrite app_nil_r, <- map_take, length_map'. simpl in Hshows.
    split; [done |]. split; [exists albums; by rewrite slice_to_nonneg by nia |]. split; [done |]. split; [done |].
    split; [done |]. split; [done |]. split; [| done].
    symmetry. by eapply Forall2_length.
  - (* artists *)
    unfold bind, M_bind, lift at 1, container.
    destruct (topartists_artist data) as [artists|]; [| done].
    destruct (scrape_calls W username period (width * height) t) as (evs0 & Hevs0 & Hcalls).
    destruct (scrape_artists_for_chart W username period (width * height) t)
      as [[scraped|e] t0] eqn:Hscrape; [| done].
    simpl in Hevs0. subst t0.
    destruct (artists_loop W scraped 0 _ [] ∅ (t ++ evs0)) as [[chart|e] t1] eqn:Hloop; [| done].
    unfold lift.
    destruct (charts W chart width height) as [f'|e] eqn:Hcharts; [| done].
    intros [= <- <-].
    apply charts_shows in Hcharts as (Hw & Hh & Hshows).
    apply artists_loop_ok in Hloop as (imgs & cd' & Hlen & Hres & ->).
    rewrite slice_to_nonneg in * by nia. rewrite drop_0 in *.
    set (n := length (take (Z.to_nat (width * height)) artists)) in *.
    exists (map artist_label artists), (take n scraped), imgs, cd', evs0.
    rewrite <- map_take, length_map'. simpl in Hshows.
    split; [done |]. split.
    { exists artists, scraped. rewrite slice_to_nonneg by nia. fold n.
      split; [done |]. split; [done |]. split; [done |]. by rewrite Hlen. }
    done.
  - (* recent tracks *)
    unfold bind, M_bind, lift at 1, container.
    destruct (recenttracks_track data) as [tracks|]; [| done].
    destruct (tracks_loop W _ [] ∅ None width height t) as [[img|e] t1] eqn:Hloop; [| done].
    destruct img as [f'|]; [| done].
    intros [= <- <-].
    apply tracks_loop_ok in Hloop as (refs & imgs & cd' & Hrefs & Hres & Himg).
    destruct Himg as [[_ [=]]|(f'' & [= <-] & Hgen)].
    apply gen_track_chart_shows in Hgen as (Hw & Hh & Hshows).
    rewrite slice_to_nonneg in * by nia.
    exists (map track_label (as_list tracks)), refs, imgs, cd', [].
    rewrite app_nil_r, <- map_take, length_map'. simpl in Hshows.
    split; [done |]. split; [exists tracks; by rewrite slice_to_nonneg by nia |]. split; [done |]. split; [done |].
    split; [done |]. split; [done |]. split; [| done].
    symmetry. by eapply Forall2_length.
Qed.

Lemma tiles_of_zip labels : ∀ (imgs : list bytes) tiles,
  length imgs = length labels →
  Forall2 tile_of (zip labels imgs) tiles →
  map tile_name tiles = map (λ label, label +:+ ".png") labels
  ∧ map tile_source tiles = imgs.
Proof.
  induction labels as [|label labels IH]; intros [|b imgs] tiles Hlen Hall;
    simpl in *; try done.
  - by inversion Hall.
  - inversion Hall as [|item tl items tls [Hname Hsrc] Hrest]; subst. simpl in *.
    destruct (IH imgs tls) as [-> ->]; [lia | done |]. by rewrite Hname, Hsrc.
Qed.

(** Whenever [create_chart] returns its image, for each of the three
    methods: the grid holds exactly min(items reported, width * height)
    tiles; they are the tiles of the first items in the provider's order
    (tile [k] is named after the label of item [k]); tile [k] is pasted in
    column [k mod width] of row [k / width], inside the canvas. *)
Lemma tiles_of_returned_chart W data method height width period username t f t' :
  create_chart W data method height width period username t = (Ok f, t') →
  ∃ labels tiles,
    ranked_labels data method = Some labels
    ∧ pastes (file_image f) = imap (place width) tiles
    ∧ length tiles = (length labels `min` Z.to_nat (width * height))%nat
    ∧ map tile_name tiles
      = map (λ label, label +:+ ".png") (take (Z.to_nat (width * height)) labels)
    ∧ ∀ k, (k < length tiles)%nat →
        0 ≤ 300 * (Z.of_nat k `mod` width) < 300 * width
        ∧ 0 ≤ 300 * (Z.of_nat k `div` width) < 300 * height.
Proof.
  intros (labels & refs & imgs & cd' & evs0 & Hlabels & _ & _ & Hres & Hw & Hh
          & Hlen & tiles & Htiles & Hpastes)%create_chart_ok.
  apply resolve_all_spec in Hres as (_ & _ & _ & _ & _ & Himgs).
  apply Forall2_length in Himgs.
  assert (Hcount : length tiles = length (take (Z.to_nat (width * height)) labels)).
  { apply Forall2_length in Htiles. rewrite <- Htiles, length_zip. lia. }
  apply tiles_of_zip in Htiles as [Hnames _]; [| lia].
  exists labels, tiles. split; [done |]. split; [done |].
  split; [by rewrite Hcount, length_take; lia |]. split; [done |].
  intros k Hk. rewrite Hcount, length_take in Hk.
  assert (0 < width) by lia.
  pose proof (Z.mod_pos_bound (Z.of_nat k) width ltac:(done)).
  assert (Z.of_nat k `div` width < height).
  { apply Z.div_lt_upper_bound; [done |]. lia. }
  pose proof (Z.div_pos (Z.of_nat k) width ltac:(lia) ltac:(done)).
  lia.
Qed.


(** ** Artist charts when the listing falls short *)

(** An artist chart cannot return when the resolver hands back fewer URLs
    than there are artists to draw: [scraped_images[i]] runs off the end. *)
Lemma create_chart_short_scrape W data artists scraped height width period username t t0 :
  topartists_artist data = Some artists →
  scrape_artists_for_chart W username period (width * height) t = (Ok scraped, t0) →
  (length scraped < length (slice_to artists (width * height)))%nat →
  ∀ f t', create_chart W data "user.gettopartists" height width period username t
          ≠ (Ok f, t').
Proof.
  intros Hartists Hscrape Hshort f t'
    (labels & refs & imgs & cd' & evs0 & _ & Hrefs & _)%create_chart_ok.
  unfold references in Hrefs. simpl in Hrefs.
  destruct Hrefs as (artists' & scraped' & Ha & Hs & Hlen & Htake).
  rewrite Hartists in Ha. injection Ha as <-.
  rewrite Hscrape in Hs. injection Hs as <-.
  apply (f_equal length) in Htake. rewrite length_take in Htake. lia.
Qed.

(** C6. One artist reported, a listing page without any image row: the
    resolver returns no URL and the request ends in [IndexError] instead
    of an image.  A listing page that gets no response ends the request in
    [ClientError]. *)
Theorem artists_chart_fails_on_short_scrape :
  topartists_artist sample_content
  = Some [{| artist_name := "Radiohead"; artist_playcount := VStr "20" |}]
  ∧ (scrape_artists_for_chart W_no_rows "alice" "overall" (1 * 1) []).1 = Ok []
  ∧ lastfm_chart W_no_rows "alice" "artists" "overall" 1 1 []
    = (Raise IndexError,
       [Net (provider_request "alice" "user.gettopartists" "overall");
        Net (page_request "alice" "ALL" 1)])
  ∧ lastfm_chart W_provider_only "alice" "artists" "overall" 1 1 []
    = (Raise ClientError,
       [Net (provider_request "alice" "user.gettopartists" "overall");
        Net (page_request "alice" "ALL" 1)]).
Proof. repeat split; vm_compute; reflexivity. Qed.

(** ** The declared content type *)

Lemma create_chart_format W data method height width period username t f t' :
  create_chart W data method height width period username t = (Ok f, t') →
  file_format f = "webp" ∧ file_name f = "chart.webp".
Proof.
  assert (Hg : ∀ tiles w h f, create_graph tiles w h = Ok f →
                 file_format f = "webp" ∧ file_name f = "chart.webp").
  { intros tiles w h f0. unfold create_graph, bind, result_bind.
    destruct (compose tiles w h); [| done]. by intros (-> & _)%save_webp_inv. }
  assert (Hc : ∀ chart w h f, charts W chart w h = Ok f →
                 file_format f = "webp" ∧ file_name f = "chart.webp").
  { intros chart w h f0. unfold charts, bind, result_bind.
    destruct (for_each _ chart); [| done]. apply Hg. }
  assert (Ht : ∀ chart w h f, gen_track_chart W chart w h = Ok f →
                 file_format f = "webp" ∧ file_name f = "chart.webp").
  { intros chart w h f0. unfold gen_track_chart, bind, result_bind.
    destruct (for_each _ chart); [| done]. apply Hg. }
  unfold create_chart. repeat case_decide; try done.
  - unfold bind, M_bind, lift at 1.
    destruct (container _ _); [| done].
    destruct (albums_loop _ _ _ _ _) as [[chart|e] t1]; [| done].
    unfold lift. destruct (charts W chart width height) eqn:Hf; [| done].
    intros [= <- <-]. by eapply Hc.
  - unfold bind, M_bind, lift at 1.
    destruct (container _ _); [| done].
    destruct (scrape_artists_for_chart _ _ _ _ _) as [[scraped|e] t0]; [| done].
    destruct (artists_loop _ _ _ _ _ _ _) as [[chart|e] t1]; [| done].
    unfold lift. destruct (charts W chart width height) eqn:Hf; [| done].
    intros [= <- <-]. by eapply Hc.
  - unfold bind, M_bind, lift at 1.
    destruct (container _ _) as [tracks|]; [| done].
    destruct (tracks_loop _ _ _ _ _ _ _ _) as [[img|e] t1] eqn:Hloop; [| done].
    destruct img as [f'|]; [| done]. intros [= <- <-].
    apply tracks_loop_ok in Hloop
      as (refs & imgs & cd' & _ & _ & [[_ [=]]|(f'' & [= ->] & Hgen)]).
    by eapply Ht.
Qed.

(** Every response of [lastfm_chart] declares [image/png] and carries a
    file saved as [webp]. *)
Lemma lastfm_chart_content_type W username datatype period height width t resp t' :
  lastfm_chart W username datatype period height width t = (Ok resp, t') →
  status_code resp = 200
  ∧ media_type resp = "image/png"
  ∧ file_format (resp_content resp) = "webp".
Proof.
  unfold lastfm_chart. destruct (height + width >? 31); [done |].
  destruct (dict_get DATATYPES datatype) as [method|]; [| done].
  unfold bind, M_bind.
  destruct (session_get W _ t) as [[response|e] t1]; [| done].
  unfold lift at 1. destruct (read_content response) as [content|e]; [| done].
  destruct (create_chart W content method height width period username t1)
    as [[chart|e] t2] eqn:Hchart; [| done].
  intros [= <- <-]. simpl. apply create_chart_format in Hchart as [-> _]. done.
Qed.

(** C9. A one-by-one album chart succeeds with status 200; its body is a
    file saved in the [webp] format under the name [chart.webp], and its
    declared media type is [image/png]. *)
Theorem lastfm_chart_declares_png_for_webp :
  ∃ resp t',
    lastfm_chart W_up "alice" "albums" "overall" 1 1 [] = (Ok resp, t')
    ∧ status_code resp = 200
    ∧ file_format (resp_content resp) = "webp"
    ∧ file_name (resp_content resp) = "chart.webp"
    ∧ media_type resp = "image/png"
    ∧ media_type resp ≠ "image/" +:+ file_format (resp_content resp).
Proof.
  eexists _, _. split; [vm_compute; reflexivity |]. simpl.
  repeat split. discriminate.
Qed.

(** ** When a chart request returns *)

Lemma has_nl_app a b : has_nl (a +:+ b) = has_nl a || has_nl b.
Proof.
  induction a as [|c a IH]; [done |].
  change (has_nl (String c (a +:+ b)) = has_nl (String c a) || has_nl b).
  simpl. by rewrite IH, orb_assoc.
Qed.

Lemma split_nl_second s :
  has_nl s = true → ∃ line1 line2 lines, split_nl s = line1 :: line2 :: lines.
Proof.
  induction s as [|c s IH]; simpl; [done |].
  destruct (Ascii.eqb c nl); simpl.
  - intros _. destruct (split_nl_cons s) as (line & lines & ->). by eexists _, _, _.
  - intros (line1 & line2 & lines & ->)%IH. by eexists _, _, _.
Qed.

Lemma charts_item_returns W item :
  is_Some (image_size W item.2) → has_nl item.1 = true →
  ∃ tl, charts_item W item = Ok tl.
Proof.
  intros [sz Hsz] (line1 & line2 & lines & Hsplit)%split_nl_second.
  unfold charts_item, bind, result_bind, getitem. rewrite Hsz, Hsplit. simpl.
  destruct (len line2 >? 30); by eexists.
Qed.

Lemma gen_track_chart_item_returns W item :
  is_Some (image_size W item.2) → ∃ tl, gen_track_chart_item W item = Ok tl.
Proof.
  intros [sz Hsz]. unfold gen_track_chart_item. rewrite Hsz.
  destruct (len item.1 >? 30); by eexists.
Qed.

Lemma for_each_returns {A B} (f : A → result B) l :
  Forall (λ x, ∃ y, f x = Ok y) l → ∃ ys, for_each f l = Ok ys.
Proof.
  induction 1 as [|x l [y Hy] _ [ys IH]]; simpl; [by eexists |].
  rewrite Hy, IH. by eexists.
Qed.

Lemma create_graph_returns tiles w h : 1 ≤ w → 1 ≤ h → ∃ f, create_graph tiles w h = Ok f.
Proof.
  intros Hw Hh.
  destruct (compose_size tiles w h Hw ltac:(lia)) as (final & Hc & Hsz).
  unfold create_graph, bind, result_bind. rewrite Hc.
  rewrite (save_webp_downsize final (300 * w) (300 * h)) by (done || lia).
  by eexists.
Qed.

Lemma charts_returns W chart w h :
  healthy W → 1 ≤ w → 1 ≤ h →
  Forall (λ item, has_nl item.1 = true) chart →
  ∃ f, charts W chart w h = Ok f.
Proof.
  intros [_ Himg] Hw Hh Hchart. unfold charts, bind, result_bind.
  destruct (for_each_returns (charts_item W) chart) as [tiles ->].
  { eapply Forall_impl; [exact Hchart |]. intros item Hnl.
    by apply charts_item_returns. }
  by apply create_graph_returns.
Qed.

Lemma gen_track_chart_returns W chart w h :
  healthy W → 1 ≤ w → 1 ≤ h → ∃ f, gen_track_chart W chart w h = Ok f.
Proof.
  intros [_ Himg] Hw Hh. unfold gen_track_chart, bind, result_bind.
  destruct (for_each_returns (gen_track_chart_item W) chart) as [tiles ->].
  { apply Forall_forall. intros item _. by apply gen_track_chart_item_returns. }
  by apply create_graph_returns.
Qed.

Lemma get_img_returns W url t : healthy W → ∃ b t', get_img W url t = (Ok b, t').
Proof.
  intros [Hnet _]. unfold get_img. run_M.
  destruct (net W (t ++ [Call_get_img url]) _) as [r|] eqn:Hr; [| by apply Hnet in Hr].
  simpl. destruct (status r =? 200); [by eexists _, _ |].
  destruct (net W _ (get NO_IMAGE_PLACEHOLDER)) as [r'|] eqn:Hr'; [| by apply Hnet in Hr'].
  by eexists _, _.
Qed.

Lemma cached_img_returns W ref (cd : gmap string bytes) t :
  healthy W → ∃ r t', cached_img W ref cd t = (Ok r, t').
Proof.
  intros HW. unfold cached_img. destruct (cd !! ref); [by eexists _, _ |].
  destruct (get_img_returns W ref t HW) as (b & t' & Hb).
  unfold bind, M_bind. rewrite Hb. by eexists _, _.
Qed.

Lemma has_nl_album_label album : has_nl (album_label album) = true.
Proof. unfold album_label. rewrite !has_nl_app. simpl. by rewrite !orb_true_r. Qed.

Lemma has_nl_artist_label artist : has_nl (artist_label artist) = true.
Proof. unfold artist_label. rewrite !has_nl_app. simpl. by rewrite !orb_true_r. Qed.

Lemma albums_loop_returns W albums :
  healthy W →
  Forall (λ album, is_Some (album_image album !! 3%nat)) albums →
  ∀ chart cd t, Forall (λ item, has_nl item.1 = true) chart →
  ∃ chart' t', albums_loop W albums chart cd t = (Ok chart', t')
               ∧ Forall (λ item, has_nl item.1 = true) chart'.
Proof.
  intros HW. induction 1 as [|album albums [ref Href] _ IH]; intros chart cd t Hchart; simpl.
  - by eexists _, _.
  - unfold bind, M_bind, lift, getitem. rewrite Href.
    destruct (cached_img_returns W ref cd t HW) as (r & t1 & ->).
    apply IH. apply Forall_app. split; [done |].
    constructor; [apply has_nl_album_label | constructor].
Qed.

Lemma artists_loop_returns W scraped iterator :
  healthy W →
  ∀ i chart cd t,
  (i + length iterator ≤ length scraped)%nat →
  Forall (λ item, has_nl item.1 = true) chart →
  ∃ chart' t', artists_loop W scraped i iterator chart cd t = (Ok chart', t')
               ∧ Forall (λ item, has_nl item.1 = true) chart'.
Proof.
  intros HW. induction iterator as [|artist iterator IH]; intros i chart cd t Hlen Hchart; simpl.
  - by eexists _, _.
  - unfold bind, M_bind, lift, getitem.
    destruct (lookup_lt_is_Some_2 scraped i) as [ref ->]; [simpl in Hlen; lia |].
    destruct (cached_img_returns W ref cd t HW) as (r & t1 & ->).
    apply IH; [simpl in Hlen; lia |]. apply Forall_app. split; [done |].
    constructor; [apply has_nl_artist_label | constructor].
Qed.

Lemma tracks_loop_returns W tracks width height :
  healthy W → 1 ≤ width → 1 ≤ height →
  Forall (λ track, is_Some (track_image track !! 3%nat)) tracks →
  ∀ chart cd img t,
  ∃ img' t', tracks_loop W tracks chart cd img width height t = (Ok img', t')
             ∧ (tracks ≠ [] → is_Some img').
Proof.
  intros HW Hw Hh. induction 1 as [|track tracks [ref Href] _ IH]; intros chart cd img t; simpl.
  - by eexists _, _.
  - unfold bind, M_bind, lift, getitem. rewrite Href.
    destruct (cached_img_returns W ref cd t HW) as (r & t1 & ->).
    destruct (gen_track_chart_returns W (chart ++ [(track_label track, r.1)])
                width height HW Hw Hh) as [f ->].
    destruct (IH (chart ++ [(track_label track, r.1)]) r.2 (Some f) t1)
      as (img' & t' & Hloop & Hsome).
    exists img', t'. split; [done |]. intros _.
    destruct tracks as [|track' tracks']; [| by apply Hsome].
    simpl in Hloop. injection Hloop as <- <-. by eexists.
Qed.

(** In a healthy world a request for a grid of at least one column and
    one row, over data that can be drawn, returns its image. *)
Lemma create_chart_returns W data method height width period username t :
  healthy W → 1 ≤ width → 1 ≤ height →
  drawable W data method height width period username t →
  ∃ f t', create_chart W data method height width period username t = (Ok f, t').
Proof.
  intros HW Hw Hh. unfold drawable, create_chart.
  destruct (decide (method = "user.gettopalbums")) as [_|_];
    [| destruct (decide (method = "user.gettopartists")) as [_|_];
       [| destruct (decide (method = "user.getrecenttracks")) as [_|_]; [| done]]].
  - intros (albums & -> & Himages).
    unfold bind, M_bind, lift at 1, container.
    destruct (albums_loop_returns W (slice_to albums (width * height)) HW) with
      (chart := @nil (string * bytes)) (cd := (∅ : gmap string bytes)) (t := t)
      as (chart & t1 & -> & Hchart).
    { rewrite slice_to_nonneg by nia. by apply Forall_take. }
    { constructor. }
    unfold lift.
    destruct (charts_returns W chart width height HW Hw Hh Hchart) as [f ->].
    by eexists _, _.
  - intros (artists & scraped & -> & Hscrape & Hlen).
    unfold bind, M_bind, lift at 1, container.
    destruct (scrape_artists_for_chart W username period (width * height) t)
      as [r t0]. simpl in Hscrape. subst r.
    destruct (artists_loop_returns W scraped (slice_to artists (width * height)) HW
                0%nat [] ∅ t0) as (chart & t1 & -> & Hchart); [lia | constructor |].
    unfold lift.
    destruct (charts_returns W chart width height HW Hw Hh Hchart) as [f ->].
    by eexists _, _.
  - intros (tracks & -> & Hne & Himages).
    unfold bind, M_bind, lift at 1, container.
    destruct (tracks_loop_returns W (slice_to (as_list tracks) (width * height))
                width height HW Hw Hh) with
      (chart := @nil (string * bytes)) (cd := (∅ : gmap string bytes))
      (img := @None file) (t := t) as (img & t1 & -> & Hsome).
    { rewrite slice_to_nonneg by nia. by apply Forall_take. }
    destruct Hsome as [f ->]; [| by eexists _, _].
    rewrite slice_to_nonneg by nia.
    destruct (as_list tracks) as [|track rest]; [done |].
    destruct (Z.to_nat (width * height)) eqn:Hn; [nia | done].
Qed.

(** ** A valid request whose tile is not drawn *)

(** C1. A request for a 1 by 1 artist chart passes the size check and
    names a supported type; the provider reports one artist, every request
    is answered and every body is an image, so min(items, width * height)
    = 1 tile is due.  The listing page has no artist row: the resolver
    returns no URL, [create_chart] ends in [IndexError] at
    [scraped_images[0]] after the one page request, and [lastfm_chart]
    passes the error on: no grid is composed and no tile is shown. *)
Theorem artists_chart_shows_no_tile :
  healthy W_no_rows
  ∧ (1 + 1 >? 31) = false
  ∧ dict_get DATATYPES "artists" = Some "user.gettopartists"
  ∧ (∃ artists, topartists_artist sample_content = Some artists
       ∧ (length artists `min` Z.to_nat (1 * 1))%nat = 1%nat)
  ∧ (scrape_artists_for_chart W_no_rows "alice" "overall" (1 * 1) []).1 = Ok []
  ∧ create_chart W_no_rows sample_content "user.gettopartists" 1 1 "overall" "alice" []
    = (Raise IndexError, [Net (page_request "alice" "ALL" 1)])
  ∧ (lastfm_chart W_no_rows "alice" "artists" "overall" 1 1 []).1 = Raise IndexError.
Proof.
  split; [split; [intros t req; discriminate | intros b; by eexists] |].
  split; [reflexivity |]. split; [reflexivity |].
  split; [eexists; split; reflexivity |].
  repeat split; vm_compute; reflexivity.
Qed.

(** ** No reference is fetched twice, whether the request returns or not *)









(** ** Sample runs *)

(** Three albums, two of them with the same cover: two calls of
    [get_img], three tiles, the third at the start of the second row. *)
Example sample_albums_run :
  let run := create_chart W_up sample_content "user.gettopalbums" 2 2 "overall" "alice" [] in
  calls run.2 = ["http://img/kida.png"; "http://img/amnesiac.png"]
  ∧ ∃ f, run.1 = Ok f
      ∧ map (λ p, (tile_text p.1, p.2)) (pastes (file_image f))
        = [("12 plays" +:+ newline +:+ "Kid A - Radiohead", (0, 0, 300, 300));
           ("7 plays" +:+ newline +:+ "Amnesiac - Radiohead", (300, 0, 600, 300));
           ("1 plays" +:+ newline +:+ "Kid A (Deluxe) - Radiohead", (0, 300, 300, 600))].
Proof. split; [reflexivity |]. eexists. split; reflexivity. Qed.

(** A user without any recent track: the loop body never runs, [img] is
    never assigned, and [return img] raises. *)
Example recenttracks_without_tracks :
  recenttracks_track sample_content = Some (TrackList [])
  ∧ create_chart W_up sample_content "user.getrecenttracks" 3 3 "overall" "alice" []
    = (Raise (UnboundLocalError "img"), []).
Proof. split; reflexivity. Qed.

(** A zero width passes validation and fails in [chunks]; a negative
    height passes validation and fails in [Image.new]. *)
Example nonpositive_dimensions_run :
  (lastfm_chart W_up "alice" "albums" "overall" 3 0 []).1 = Raise ValueError
  ∧ (lastfm_chart W_up "alice" "albums" "overall" (-1) 4 []).1 = Raise ValueError.
Proof. split; reflexivity. Qed.

(** * Further properties of the program *)

(** ** What the provider's answer does to a request *)

Lemma lastfm_chart_after_validation W username datatype method period height width t :
  height + width ≤ 31 →
  dict_get DATATYPES datatype = Some method →
  lastfm_chart W username datatype period height width t
  = (response <- session_get W (provider_request username method period) ;;
     content <- lift (read_content response) ;;
     chart <- create_chart W content method height width period username ;;
     ret {| resp_content := chart; media_type := "image/png"; status_code := 200 |}) t.
Proof.
  intros Hsum Hkey. unfold lastfm_chart.
  destruct (Z.gtb_spec (height + width) 31) as [?|_]; [lia |]. by rewrite Hkey.
Qed.

(** X1. When the provider's JSON carries an ["error"] key, or its status
    is not 200, the request ends with an HTTP error of the provider's own
    status whose detail is the provider's message; a body without
    ["message"] ends it with [KeyError] instead.  Either way only the
    provider request was sent. *)
Theorem lastfm_chart_upstream_error
    W username datatype method period height width t r c :
  height + width ≤ 31 →
  dict_get DATATYPES datatype = Some method →
  net W t (provider_request username method period) = Responds r →
  json r = JsonOk c →
  has_error c = true ∨ status r ≠ 200 →
  lastfm_chart W username datatype period height width t
  = (match message c with
     | Some detail => Raise (HTTPException (status r) detail)
     | None => Raise (KeyError "message")
     end,
     t ++ [Net (provider_request username method period)]).
Proof.
  intros Hsum Hkey Hnet Hjson Herr.
  rewrite (lastfm_chart_after_validation W username datatype method period
             height width t Hsum Hkey).
  unfold bind at 1, M_bind at 1, session_get. rewrite Hnet.
  unfold bind at 1, M_bind at 1, lift, read_content. rewrite Hjson.
  assert (has_error c || negb (status r =? 200) = true) as ->.
  { destruct Herr as [-> | Hst]; [done |].
    destruct (Z.eqb_spec (status r) 200); [done |]. by rewrite orb_true_r. }
  unfold bind, result_bind, container. by destruct (message c).
Qed.

Lemma lastfm_chart_upstream_error_witness :
  lastfm_chart W_user_not_found "nobody" "albums" "overall" 3 3 []
  = (Raise (HTTPException 404 "User not found"),
     [Net (provider_request "nobody" "user.gettopalbums" "overall")]).
Proof.
  apply (lastfm_chart_upstream_error W_user_not_found "nobody" "albums"
           "user.gettopalbums" "overall" 3 3 []
           {| status := 404; read := []; text := ""; json := JsonOk error_content |}
           error_content);
    [lia | reflexivity | reflexivity | reflexivity | left; reflexivity].
Defined.

(** X2. When the provider gives no usable body, the request ends after
    the provider request alone: with the client error when there is no
    response, with [UnboundLocalError] on [content] when the body is not
    served as JSON (the suppressed error leaves [content] unassigned), and
    with the decoder's error when the JSON is malformed. *)
Theorem lastfm_chart_unusable_body
    W username datatype method period height width t :
  height + width ≤ 31 →
  dict_get DATATYPES datatype = Some method →
  (net W t (provider_request username method period) = Fails →
   lastfm_chart W username datatype period height width t
   = (Raise ClientError, t ++ [Net (provider_request username method period)]))
  ∧ (∀ r, net W t (provider_request username method period) = Responds r →
       json r = JsonContentTypeError →
       lastfm_chart W username datatype period height width t
       = (Raise (UnboundLocalError "content"),
          t ++ [Net (provider_request username method period)]))
  ∧ (∀ r, net W t (provider_request username method period) = Responds r →
       json r = JsonDecodeError →
       lastfm_chart W username datatype period height width t
       = (Raise JSONDecodeError,
          t ++ [Net (provider_request username method period)])).
Proof.
  intros Hsum Hkey.
  rewrite (lastfm_chart_after_validation W username datatype method period
             height width t Hsum Hkey).
  split; [| split].
  - intros Hnet. unfold bind at 1, M_bind at 1, session_get. by rewrite Hnet.
  - intros r Hnet Hjson. unfold bind at 1, M_bind at 1, session_get. rewrite Hnet.
    unfold bind at 1, M_bind at 1, lift, read_content. by rewrite Hjson.
  - intros r Hnet Hjson. unfold bind at 1, M_bind at 1, session_get. rewrite Hnet.
    unfold bind at 1, M_bind at 1, lift, read_content. by rewrite Hjson.
Qed.

Lemma lastfm_chart_unusable_body_witness :
  lastfm_chart W_down "alice" "albums" "overall" 3 3 []
  = (Raise ClientError, [Net (provider_request "alice" "user.gettopalbums" "overall")])
  ∧ lastfm_chart W_not_json "alice" "albums" "overall" 3 3 []
    = (Raise (UnboundLocalError "content"),
       [Net (provider_request "alice" "user.gettopalbums" "overall")]).
Proof.
  split.
  - apply (proj1 (lastfm_chart_unusable_body W_down "alice" "albums" "user.gettopalbums"
                    "overall" 3 3 [] ltac:(lia) eq_refl)).
    reflexivity.
  - apply (proj1 (proj2 (lastfm_chart_unusable_body W_not_json "alice" "albums"
                           "user.gettopalbums" "overall" 3 3 [] ltac:(lia) eq_refl))
             {| status := 200; read := []; text := "<html>"; json := JsonContentTypeError |});
      reflexivity.
Defined.

(** ** [chunks] and the canvas *)

Lemma concat_rows {A} (l : list A) (n : nat) : ∀ m r,
  concat (map (λ k, take n (drop (k * n) l)) (seq r m)) = take (m * n) (drop (r * n) l).
Proof.
  induction m as [|m IH]; intros r; simpl; [done |].
  rewrite IH. replace (S r * n)%nat with (r * n + n)%nat by lia.
  by rewrite <- drop_drop, take_take_drop.
Qed.

Lemma ceil_div_tight len w : 1 ≤ w → w * (ceil_div len w - 1) < len.
Proof.
  intros Hw. unfold ceil_div. assert (Hpos : 0 < w) by lia.
  pose proof (Z.mul_succ_div_gt (- len) w Hpos). lia.
Qed.

(** X3. For a positive [n], [chunks(l, n)] cuts [l] into ceil(len / n)
    consecutive pieces that put together give [l] back; every piece is
    non-empty, piece [k] holds min(n, len - k * n) elements, so all but
    the last hold exactly [n]. *)
Theorem chunks_partition {A} (l : list A) (n : Z) :
  1 ≤ n →
  ∃ cs, chunks l n = Ok cs
    ∧ concat cs = l
    ∧ Z.of_nat (length cs) = ceil_div (Z.of_nat (length l)) n
    ∧ ∀ k c, cs !! k = Some c →
        (0 < length c)%nat
        ∧ length c = (Z.to_nat n `min` (length l - k * Z.to_nat n))%nat.
Proof.
  intros Hn. rewrite chunks_positive by done. eexists. split; [done |].
  set (m := Z.to_nat (ceil_div (Z.of_nat (length l)) n)).
  set (n' := Z.to_nat n).
  pose proof (ceil_div_covers (Z.of_nat (length l)) n Hn) as Hcov.
  pose proof (ceil_div_tight (Z.of_nat (length l)) n Hn) as Htight.
  assert (Hm : 0 ≤ ceil_div (Z.of_nat (length l)) n) by nia.
  rewrite map_map.
  rewrite (map_ext _ (λ k, take n' (drop (k * n') l))).
  2:{ intros k. unfold slice. do 2 f_equal. lia. }
  split; [| split].
  - rewrite concat_rows. simpl. rewrite drop_0. apply take_ge.
    apply Nat2Z.inj_le. rewrite Nat2Z.inj_mul. subst m n'. rewrite !Z2Nat.id by lia. lia.
  - rewrite length_map', length_seq. subst m. lia.
  - intros k c Hk.
    change (map ?f ?xs) with (f <$> xs) in Hk.
    rewrite list_lookup_fmap in Hk.
    destruct (seq 0 m !! k) as [k'|] eqn:Hseq; [| done].
    apply lookup_seq in Hseq as [-> Hlt]. injection Hk as <-. simpl.
    rewrite length_take, length_drop.
    assert (Z.of_nat k * n < Z.of_nat (length l)) by (subst m; nia).
    assert ((k * n' < length l)%nat).
    { apply Nat2Z.inj_lt. rewrite Nat2Z.inj_mul. subst n'. rewrite Z2Nat.id by lia. done. }
    split; lia.
Qed.

Lemma chunks_partition_witness :
  ∃ cs, chunks [1; 2; 3; 4; 5; 6; 7] 3 = Ok cs
    ∧ concat cs = [1; 2; 3; 4; 5; 6; 7]
    ∧ Z.of_nat (length cs) = ceil_div (Z.of_nat (length [1; 2; 3; 4; 5; 6; 7])) 3
    ∧ ∀ k c, cs !! k = Some c →
        (0 < length c)%nat
        ∧ length c = (Z.to_nat 3 `min` (length [1; 2; 3; 4; 5; 6; 7] - k * Z.to_nat 3))%nat.
Proof. apply (chunks_partition [1; 2; 3; 4; 5; 6; 7] 3). lia. Defined.

(** X4. Whatever the tiles, [create_graph] raises [ValueError] when the
    width or the height is below 1: [Image.new] refuses a negative
    measure, [range] in [chunks] refuses the step of width 0, and the
    encoder refuses the empty canvas of height 0.  For a width and a
    height of at least 1 whose canvas has no side above 16383 pixels, or
    is resized because both sides exceed 2100, it returns a file whose
    image has both sides between 1 and 16383 pixels. *)
Theorem create_graph_returns_or_raises data w h :
  (w < 1 ∨ h < 1 → create_graph data w h = Raise ValueError)
  ∧ (1 ≤ w → 1 ≤ h →
     300 * w ≤ 16383 ∧ 300 * h ≤ 16383 ∨ 2100 < 300 * w ∧ 2100 < 300 * h →
     ∃ f, create_graph data w h = Ok f
       ∧ 1 ≤ (size (file_image f)).1 ≤ 16383
       ∧ 1 ≤ (size (file_image f)).2 ≤ 16383).
Proof.
  split.
  - intros Hbad. unfold create_graph, bind, result_bind.
    destruct (Z.le_gt_cases 1 w) as [Hw|Hw], (Z.le_gt_cases 0 h) as [Hh|Hh].
    + destruct (compose_size data w h Hw Hh) as (final & -> & Hsz).
      assert (h = 0) as -> by lia.
      unfold save_webp, downsize. rewrite Hsz.
      replace (300 * 0 >? 2100) with false by done.
      rewrite andb_false_r, Hsz. simpl. by rewrite orb_true_r.
    + unfold compose, Image_new, bind, result_bind. simpl.
      destruct (Z.ltb_spec (300 * w) 0); [done |].
      by destruct (Z.ltb_spec (300 * h) 0); [| lia].
    + unfold compose, Image_new, bind, result_bind. simpl.
      destruct (Z.ltb_spec (300 * w) 0); [done |].
      destruct (Z.ltb_spec (300 * h) 0); [done |]. simpl.
      unfold chunks, range_step, bind, result_bind.
      by destruct (Z.eqb_spec w 0); [| lia].
    + unfold compose, Image_new, bind, result_bind. simpl.
      destruct (Z.ltb_spec (300 * w) 0); [done |].
      by destruct (Z.ltb_spec (300 * h) 0); [| lia].
  - intros Hw Hh Hfits. unfold create_graph, bind, result_bind.
    destruct (compose_size data w h Hw ltac:(lia)) as (final & -> & Hsz).
    rewrite (save_webp_downsize final (300 * w) (300 * h)) by (done || lia).
    eexists. split; [done |]. simpl. unfold downsize. rewrite Hsz.
    destruct (Z.gtb_spec (300 * w) 2100), (Z.gtb_spec (300 * h) 2100); simpl;
      rewrite ?Hsz; simpl; lia.
Qed.

Lemma create_graph_returns_or_raises_witness :
  create_graph [] 0 3 = Raise ValueError
  ∧ create_graph [] 3 (-1) = Raise ValueError
  ∧ create_graph [] 3 0 = Raise ValueError
  ∧ (∃ f, create_graph [] 3 1 = Ok f
       ∧ 1 ≤ (size (file_image f)).1 ≤ 16383
       ∧ 1 ≤ (size (file_image f)).2 ≤ 16383)
  ∧ (∃ f, create_graph [] 60 60 = Ok f
       ∧ 1 ≤ (size (file_image f)).1 ≤ 16383
       ∧ 1 ≤ (size (file_image f)).2 ≤ 16383).
Proof.
  split; [| split; [| split; [| split]]].
  - apply (proj1 (create_graph_returns_or_raises [] 0 3)). lia.
  - apply (proj1 (create_graph_returns_or_raises [] 3 (-1))). lia.
  - apply (proj1 (create_graph_returns_or_raises [] 3 0)). lia.
  - apply (proj2 (create_graph_returns_or_raises [] 3 1)); lia.
  - apply (proj2 (create_graph_returns_or_raises [] 60 60)); lia.
Defined.

(** X5. When no tile is larger than 300 by 300 and there are at most
    [w * h] of them, every tile is pasted inside the canvas of
    [(300 * w, 300 * h)] and no two pasted tiles overlap. *)
Theorem create_graph_tiles_apart data w h f :
  create_graph data w h = Ok f →
  Forall (λ tl, 0 ≤ (tile_size tl).1 ≤ 300 ∧ 0 ≤ (tile_size tl).2 ≤ 300) data →
  Z.of_nat (length data) ≤ w * h →
  (∀ k p, pastes (file_image f) !! k = Some p → inside (300 * w, 300 * h) p.2)
  ∧ (∀ i j p q, i ≠ j →
       pastes (file_image f) !! i = Some p → pastes (file_image f) !! j = Some q →
       apart p.2 q.2).
Proof.
  intros (Hw & Hh & _ & Hp)%create_graph_pastes Hsizes Hlen. rewrite Hp.
  assert (Hcell : ∀ k p, imap (place w) data !! k = Some p →
            ∃ tl, p = place w k tl
              ∧ 0 ≤ (tile_size tl).1 ≤ 300 ∧ 0 ≤ (tile_size tl).2 ≤ 300
              ∧ 0 ≤ Z.of_nat k `mod` w < w
              ∧ 0 ≤ Z.of_nat k `div` w < h
              ∧ Z.of_nat k = w * (Z.of_nat k `div` w) + Z.of_nat k `mod` w).
  { intros k p Hk. rewrite list_lookup_imap in Hk.
    destruct (data !! k) as [tl|] eqn:Htl; [| done]. injection Hk as <-.
    exists tl. split; [done |].
    pose proof (Forall_lookup_1 _ _ _ _ Hsizes Htl) as [? ?].
    apply lookup_lt_Some in Htl.
    assert (0 < w) by lia.
    pose proof (Z.mod_pos_bound (Z.of_nat k) w ltac:(done)).
    pose proof (Z.div_pos (Z.of_nat k) w ltac:(lia) ltac:(done)).
    assert (Z.of_nat k `div` w < h) by (apply Z.div_lt_upper_bound; lia).
    pose proof (Z.div_mod (Z.of_nat k) w ltac:(lia)).
    repeat split; lia. }
  split.
  - intros k p (tl & -> & Hx & Hy & Hc & Hr & _)%Hcell.
    unfold place, inside. simpl. lia.
  - intros i j p q Hij (ti & -> & Hxi & Hyi & Hci & Hri & Hdi)%Hcell
                       (tj & -> & Hxj & Hyj & Hcj & Hrj & Hdj)%Hcell.
    unfold place, apart. simpl.
    destruct (decide (Z.of_nat i `div` w = Z.of_nat j `div` w)) as [Heq|Hne].
    + rewrite Heq in Hdi. lia.
    + lia.
Qed.

Lemma create_graph_tiles_apart_witness :
  ∃ f, create_graph [sample_tile "a"; sample_tile "b"; sample_tile "c"] 2 2 = Ok f
    ∧ (∀ k p, pastes (file_image f) !! k = Some p → inside (300 * 2, 300 * 2) p.2)
    ∧ (∀ i j p q, i ≠ j →
         pastes (file_image f) !! i = Some p → pastes (file_image f) !! j = Some q →
         apart p.2 q.2).
Proof.
  eexists. split; [reflexivity |].
  apply (create_graph_tiles_apart [sample_tile "a"; sample_tile "b"; sample_tile "c"] 2 2).
  - reflexivity.
  - repeat constructor; simpl; lia.
  - simpl. lia.
Defined.

(** ** What a returned response looks like *)

Lemma lastfm_chart_ok W username datatype period height width t resp t' :
  lastfm_chart W username datatype period height width t = (Ok resp, t') →
  height + width ≤ 31
  ∧ ∃ method r content,
      dict_get DATATYPES datatype = Some method
      ∧ net W t (provider_request username method period) = Responds r
      ∧ read_content r = Ok content
      ∧ create_chart W content method height width period username
          (t ++ [Net (provider_request username method period)])
        = (Ok (resp_content resp), t').
Proof.
  unfold lastfm_chart.
  destruct (Z.gtb_spec (height + width) 31) as [|Hsum]; [done |].
  destruct (dict_get DATATYPES datatype) as [method|]; [| done].
  unfold bind at 1, M_bind at 1, session_get.
  destruct (net W t _) as [r|] eqn:Hnet; [| done].
  unfold bind at 1, M_bind at 1, lift.
  destruct (read_content r) as [content|e] eqn:Hread; [| done].
  unfold bind, M_bind.
  destruct (create_chart W content method height width period username _)
    as [[chart|e] t2] eqn:Hchart; [| done].
  intros [= <- <-]. split; [lia |]. by exists method, r, content.
Qed.

Lemma create_chart_graph W data method height width period username t f t' :
  create_chart W data method height width period username t = (Ok f, t') →
  ∃ tiles, create_graph tiles width height = Ok f.
Proof.
  assert (Hc : ∀ chart f, charts W chart width height = Ok f →
                 ∃ tiles, create_graph tiles width height = Ok f).
  { intros chart f0. unfold charts, bind, result_bind.
    destruct (for_each _ chart) as [tiles|]; [| done]. by exists tiles. }
  assert (Ht : ∀ chart f, gen_track_chart W chart width height = Ok f →
                 ∃ tiles, create_graph tiles width height = Ok f).
  { intros chart f0. unfold gen_track_chart, bind, result_bind.
    destruct (for_each _ chart) as [tiles|]; [| done]. by exists tiles. }
  unfold create_chart. repeat case_decide; try done.
  - unfold bind, M_bind, lift at 1.
    destruct (container _ _); [| done].
    destruct (albums_loop _ _ _ _ _) as [[chart|e] t1]; [| done].
    unfold lift. destruct (charts W chart width height) eqn:Hf; [| done].
    intros [= <- <-]. by eapply Hc.
  - unfold bind, M_bind, lift at 1.
    destruct (container _ _); [| done].
    destruct (scrape_artists_for_chart _ _ _ _ _) as [[scraped|e] t0]; [| done].
    destruct (artists_loop _ _ _ _ _ _ _) as [[chart|e] t1]; [| done].
    unfold lift. destruct (charts W chart width height) eqn:Hf; [| done].
    intros [= <- <-]. by eapply Hc.
  - unfold bind, M_bind, lift at 1.
    destruct (container _ _) as [tracks|]; [| done].
    destruct (tracks_loop _ _ _ _ _ _ _ _) as [[img|e] t1] eqn:Hloop; [| done].
    destruct img as [f'|]; [| done]. intros [= <- <-].
    apply tracks_loop_ok in Hloop
      as (refs & imgs & cd' & _ & _ & [[_ [=]]|(f'' & [= ->] & Hgen)]).
    by eapply Ht.
Qed.

(** X6. A request that returns a response had a width from 1 to 31 and a
    height from 0 to 30; the image it carries holds at most 240 tiles and
    measures 2100 by 2100 when both [300 * width] and [300 * height]
    exceed 2100, and [300 * width] by [300 * height] otherwise. *)
Theorem lastfm_chart_response_geometry
    W username datatype period height width t resp t' :
  lastfm_chart W username datatype period height width t = (Ok resp, t') →
  1 ≤ width ≤ 31 ∧ 0 ≤ height ≤ 30
  ∧ (length (pastes (file_image (resp_content resp))) ≤ 240)%nat
  ∧ size (file_image (resp_content resp))
    = if (300 * width >? 2100) && (300 * height >? 2100)
      then (2100, 2100) else (300 * width, 300 * height).
Proof.
  intros (Hsum & method & r & content & _ & _ & _ & Hchart)%lastfm_chart_ok.
  pose proof (tiles_of_returned_chart _ _ _ _ _ _ _ _ _ _ Hchart)
    as (labels & tiles & _ & Hp & Hlen & _).
  apply create_chart_graph in Hchart as [data Hgraph].
  pose proof (create_graph_pastes _ _ _ _ Hgraph) as (Hw & Hh & _ & _).
  split; [lia |]. split; [lia |]. split.
  - rewrite Hp, length_imap, Hlen.
    assert (0 ≤ (width - 15) * (width - 16)).
    { destruct (Z.le_gt_cases width 15); [apply Z.mul_nonpos_nonpos | apply Z.mul_nonneg_nonneg]; lia. }
    assert (width * height ≤ width * (31 - width)) by (apply Z.mul_le_mono_nonneg_l; lia).
    assert (width * height ≤ 240) by lia. lia.
  - revert Hgraph. unfold create_graph, bind, result_bind.
    destruct (compose_size data width height Hw Hh) as (final & -> & Hsz).
    intros (-> & _)%save_webp_inv. simpl. unfold downsize. rewrite Hsz.
    by destruct ((300 * width >? 2100) && (300 * height >? 2100)).
Qed.

Lemma lastfm_chart_response_geometry_witness :
  ∃ resp t',
    lastfm_chart W_up "alice" "albums" "overall" 8 8 [] = (Ok resp, t')
    ∧ 1 ≤ 8 ≤ 31 ∧ 0 ≤ 8 ≤ 30
    ∧ (length (pastes (file_image (resp_content resp))) ≤ 240)%nat
    ∧ size (file_image (resp_content resp))
      = if (300 * 8 >? 2100) && (300 * 8 >? 2100)
        then (2100, 2100) else (300 * 8, 300 * 8).
Proof.
  eexists _, _. split; [vm_compute; reflexivity |].
  eapply (lastfm_chart_response_geometry W_up "alice" "albums" "overall" 8 8 []).
  vm_compute. reflexivity.
Defined.

(** ** The fetcher and the cache *)

Lemma or_placeholder_nonempty url : or_placeholder url ≠ "".
Proof. unfold or_placeholder. by case_decide. Qed.

Lemma get_img_events W url t :
  ∃ evs, (get_img W url t).2 = t ++ evs
    ∧ calls evs = [url]
    ∧ or_placeholder url ≠ ""
    ∧ (requests evs = [get (or_placeholder url)]
       ∨ requests evs = [get (or_placeholder url); get NO_IMAGE_PLACEHOLDER]).
Proof.
  unfold get_img. run_M.
  destruct (net W (t ++ [Call_get_img url]) _) as [r|]; simpl.
  - destruct (status r =? 200); simpl.
    + exists [Call_get_img url; Net (get (or_placeholder url))].
      rewrite <- app_assoc. split; [done |]. split; [done |].
      split; [apply or_placeholder_nonempty | by left].
    + exists [Call_get_img url; Net (get (or_placeholder url)); Net (get NO_IMAGE_PLACEHOLDER)].
      split; [destruct (net W _ _); simpl; by rewrite <- !app_assoc |].
      split; [done |]. split; [apply or_placeholder_nonempty | by right].
  - exists [Call_get_img url; Net (get (or_placeholder url))].
    rewrite <- app_assoc. split; [done |]. split; [done |].
    split; [apply or_placeholder_nonempty | by left].
Qed.

(** X7. Whatever the network does, one call of [get_img] sends one
    request or two, never more; the first never goes to an empty address,
    and the second, when there is one, goes to the placeholder. *)
Theorem get_img_requests W url t :
  ∃ evs, (get_img W url t).2 = t ++ evs
    ∧ calls evs = [url]
    ∧ or_placeholder url ≠ ""
    ∧ (requests evs = [get (or_placeholder url)]
       ∨ requests evs = [get (or_placeholder url); get NO_IMAGE_PLACEHOLDER]).
Proof. apply get_img_events. Qed.

(** X8. After [cached_img] has returned bytes for a reference, the cache
    holds them under that reference and every other entry is as it was;
    asking again for the same reference returns the same bytes and adds
    nothing to the trace. *)
Theorem cached_img_again W ref (cd : gmap string bytes) t b cd' t' :
  cached_img W ref cd t = (Ok (b, cd'), t') →
  cd' !! ref = Some b
  ∧ (∀ k, k ≠ ref → cd' !! k = cd !! k)
  ∧ cd ⊆ cd'
  ∧ cached_img W ref cd' t' = (Ok (b, cd'), t').
Proof.
  intros [(Hhit & -> & ->)|(Hmiss & -> & _)]%cached_img_spec.
  - split; [done |]. split; [done |]. split; [done |].
    unfold cached_img. by rewrite Hhit.
  - split; [apply lookup_insert_eq |].
    split; [intros k Hk; by apply lookup_insert_ne |].
    split; [by apply insert_subseteq |].
    unfold cached_img. by rewrite lookup_insert_eq.
Qed.

Lemma cached_img_again_witness :
  ∃ cd' t',
    cached_img W_up "http://img/kida.png" ∅ [] = (Ok (png_a, cd'), t')
    ∧ cd' !! "http://img/kida.png" = Some png_a
    ∧ (∀ k, k ≠ "http://img/kida.png" → cd' !! k = (∅ : gmap string bytes) !! k)
    ∧ (∅ : gmap string bytes) ⊆ cd'
    ∧ cached_img W_up "http://img/kida.png" cd' t' = (Ok (png_a, cd'), t').
Proof.
  eexists _, _. split; [reflexivity |].
  apply (cached_img_again W_up "http://img/kida.png" ∅ []). reflexivity.
Defined.

(** ** The resolver at its edges *)

Lemma page_numbers_nil amount : amount ≤ 0 → page_numbers amount = [].
Proof.
  intros Hle. rewrite page_numbers_spec. unfold ceil_div.
  assert (0 ≤ - amount / 50) by (apply Z.div_pos; lia).
  by replace (Z.to_nat (- (- amount / 50))) with 0%nat by lia.
Qed.

Lemma page_numbers_cons amount : 1 ≤ amount → ∃ pages, page_numbers amount = 1 :: pages.
Proof.
  intros Hge. rewrite page_numbers_spec.
  pose proof (ceil_div_covers amount 50 ltac:(lia)).
  destruct (Z.to_nat (ceil_div amount 50)) as [|n] eqn:Hn; [lia |]. by eexists.
Qed.

(** X9. Asked for no artist at all ([amount] at most 0) the resolver
    returns the empty list without sending anything, whatever the period.
    Asked for at least one artist under a period that is not a key of
    [period_format_map], it raises [KeyError] before any page is
    requested. *)
Theorem scrape_without_pages W username period amount t :
  (amount ≤ 0 → scrape_artists_for_chart W username period amount t = (Ok [], t))
  ∧ (1 ≤ amount → dict_get period_format_map period = None →
     scrape_artists_for_chart W username period amount t = (Raise (KeyError period), t)).
Proof.
  unfold scrape_artists_for_chart. split.
  - intros Hle. by rewrite (page_numbers_nil amount Hle).
  - intros Hge Hperiod. destruct (page_numbers_cons amount Hge) as [pages ->].
    by rewrite Hperiod.
Qed.

Lemma scrape_without_pages_witness :
  scrape_artists_for_chart W_up "alice" "fortnight" 0 [] = (Ok [], [])
  ∧ scrape_artists_for_chart W_up "alice" "fortnight" 9 [] = (Raise (KeyError "fortnight"), []).
Proof.
  split.
  - apply (proj1 (scrape_without_pages W_up "alice" "fortnight" 0 [])). lia.
  - apply (proj2 (scrape_without_pages W_up "alice" "fortnight" 9 [])); [lia | reflexivity].
Defined.

Lemma gather_fetch_text_fails W url preset pages : ∀ t,
  Exists (λ o, o = Fails)
    (page_outcomes W (map (λ i, {| req_url := url; req_params := page_params preset i |}) pages) t) →
  (gather (map (λ i, fetch_text W url (page_params preset i)) pages) t).1 = Raise ClientError.
Proof.
  induction pages as [|i pages IH]; intros t Hex; simpl in *.
  - by apply Exists_nil in Hex.
  - unfold fetch_text at 1. run_M.
    destruct (net W t _) as [r|] eqn:Hnet; simpl; [| done].
    apply Exists_cons in Hex as [Hex|Hex]; [done |].
    specialize (IH _ Hex).
    destruct (gather _ _) as [[l|e] t2]; simpl in *; congruence.
Qed.

(** X10. For a period of [period_format_map], if any of the page requests
    gets no response the resolver raises the client error: it returns
    no partial list, even when other pages were answered. *)
Theorem scrape_fails_with_a_page W username period preset amount t :
  dict_get period_format_map period = Some preset →
  Exists (λ o, o = Fails)
    (page_outcomes W (map (page_request username preset) (page_numbers amount)) t) →
  (scrape_artists_for_chart W username period amount t).1 = Raise ClientError.
Proof.
  intros Hperiod Hex.
  rewrite (scrape_unfold W username period preset amount t Hperiod).
  pose proof (gather_fetch_text_fails W (artists_url username) preset
                (page_numbers amount) t Hex) as Hfail.
  unfold bind, M_bind, lift.
  destruct (gather _ t) as [[l|e] t2]; simpl in *; congruence.
Qed.

Lemma scrape_fails_with_a_page_witness :
  page_outcomes W_404_then_down
    (map (page_request "alice" "ALL") (page_numbers 51)) []
  = [answer 404 error_page ""; Fails]
  ∧ (scrape_artists_for_chart W_404_then_down "alice" "overall" 51 []).1 = Raise ClientError.
Proof.
  split; [reflexivity |].
  apply (scrape_fails_with_a_page W_404_then_down "alice" "overall" "ALL" 51 []);
    [reflexivity |].
  apply Exists_cons_tl, Exists_cons_hd. reflexivity.
Defined.

(** ** Charts with nothing to draw *)

(** X11. An album chart over an empty album list returns straight away,
    for any width and height of at least 1: nothing is fetched, and the
    file is the bare canvas, with no tile on it. *)
Theorem create_chart_no_album W data height width period username t :
  topalbums_album data = Some [] →
  1 ≤ width → 1 ≤ height →
  create_chart W data "user.gettopalbums" height width period username t
  = (Ok {| file_name := "chart.webp"; file_format := "webp";
           file_image := downsize (New (300 * width, 300 * height)) |}, t).
Proof.
  intros Hdata Hw Hh. unfold create_chart. simpl.
  unfold bind at 1, M_bind at 1, lift at 1, container. rewrite Hdata.
  assert (slice_to (@nil album) (width * height) = []) as ->.
  { unfold slice_to. by destruct (0 <=? width * height); rewrite take_nil. }
  simpl. unfold bind, M_bind, ret, M_ret, lift, charts. simpl.
  unfold create_graph, compose, Image_new, bind, result_bind. simpl.
  destruct (Z.ltb_spec (300 * width) 0); [lia |].
  destruct (Z.ltb_spec (300 * height) 0); [lia |]. simpl.
  rewrite chunks_positive by done. simpl.
  replace (Z.to_nat (ceil_div 0 width)) with 0%nat
    by (unfold ceil_div; simpl; by rewrite Z.div_0_l by lia).
  simpl.
  by rewrite (save_webp_downsize (New (300 * width, 300 * height))
                (300 * width) (300 * height)) by (done || lia).
Qed.

Lemma create_chart_no_album_witness :
  create_chart W_down
    {| has_error := false; message := None; topalbums_album := Some [];
       topartists_artist := None; recenttracks_track := None |}
    "user.gettopalbums" 3 3 "overall" "alice" []
  = (Ok {| file_name := "chart.webp"; file_format := "webp";
           file_image := downsize (New (300 * 3, 300 * 3)) |}, []).
Proof.
  apply (create_chart_no_album W_down _ 3 3 "overall" "alice" []); [reflexivity | lia | lia].
Defined.

(** X12. A recent-tracks chart whose slice of tracks is empty (no track
    at all, or a capacity [width * height] of zero) never returns an
    image: the loop body that assigns [img] does not run, and the request
    ends in [UnboundLocalError] without fetching anything. *)
Theorem create_chart_no_track W data tracks height width period username t :
  recenttracks_track data = Some tracks →
  slice_to (as_list tracks) (width * height) = [] →
  create_chart W data "user.getrecenttracks" height width period username t
  = (Raise (UnboundLocalError "img"), t).
Proof.
  intros Hdata Hslice. unfold create_chart. simpl.
  unfold bind at 1, M_bind at 1, lift at 1, container. rewrite Hdata, Hslice. done.
Qed.

Lemma create_chart_no_track_witness :
  create_chart W_up sample_content "user.getrecenttracks" 3 3 "overall" "alice" []
  = (Raise (UnboundLocalError "img"), []).
Proof.
  apply (create_chart_no_track W_up sample_content (TrackList []) 3 3 "overall" "alice" []);
    reflexivity.
Defined.

(** ** Labels and tiles *)

(** X13. A tile for an album or an artist fails to be drawn only when its
    artwork cannot be decoded: the label the program builds always has
    its second line, whatever the names and the play count, so [charts]
    never runs off the list of lines. *)
Theorem charts_item_built_label W label img :
  (∃ album, label = album_label album) ∨ (∃ artist, label = artist_label artist) →
  (is_Some (image_size W img) → ∃ tl, charts_item W (label, img) = Ok tl)
  ∧ (image_size W img = None → charts_item W (label, img) = Raise UnidentifiedImageError).
Proof.
  intros Hlabel. split.
  - intros Himg. apply charts_item_returns; [done |]. simpl.
    destruct Hlabel as [[album ->]|[artist ->]];
      [apply has_nl_album_label | apply has_nl_artist_label].
  - intros Himg. unfold charts_item. simpl. by rewrite Himg.
Qed.

Lemma charts_item_built_label_witness :
  (∃ tl, charts_item W_up
           (album_label {| album_name := ""; album_artist_name := "";
                           album_playcount := VStr ""; album_image := [] |}, png_a) = Ok tl)
  ∧ charts_item {| net := λ _ _, Fails; image_size := λ _, None;
                   chartlist_image := λ _, [] |}
      (artist_label {| artist_name := "Radiohead"; artist_playcount := VInt 1 |}, error_page)
    = Raise UnidentifiedImageError.
Proof.
  split.
  - apply (proj1 (charts_item_built_label W_up _ png_a (or_introl (ex_intro _ _ eq_refl)))).
    by eexists.
  - apply (proj2 (charts_item_built_label _ _ error_page (or_intror (ex_intro _ _ eq_refl)))).
    reflexivity.
Defined.

Lemma has_nl_str_to n : ∀ s, has_nl s = false → has_nl (str_to n s) = false.
Proof.
  induction n as [|n IH]; intros [|c s]; simpl; try done.
  intros [-> Hs]%orb_false_iff. simpl. by apply IH.
Qed.

Lemma has_nl_str_from n : ∀ s, has_nl s = false → has_nl (str_from n s) = false.
Proof.
  induction n as [|n IH]; intros [|c s]; simpl; try done.
  intros [_ Hs]%orb_false_iff. by apply IH.
Qed.

(** X14. A recent-track label is wrapped at most once.  Up to 30
    characters it is drawn as it is, at (5, 267).  Beyond, it is drawn at
    (5, 247) as two lines that put together give the label back: the
    first holds exactly 30 characters and the second all the others,
    however many. *)
Theorem gen_track_chart_wraps_once W label img sz :
  image_size W img = Some sz →
  has_nl label = false →
  ∃ tl, gen_track_chart_item W (label, img) = Ok tl
    ∧ ((String.length label ≤ 30)%nat →
       tile_xy tl = (5, 267) ∧ split_nl (tile_text tl) = [label])
    ∧ ((30 < String.length label)%nat →
       tile_xy tl = (5, 247)
       ∧ split_nl (tile_text tl) = [str_to 30 label; str_from 30 label]
       ∧ String.length (str_to 30 label) = 30%nat
       ∧ String.length (str_from 30 label) = (String.length label - 30)%nat
       ∧ str_to 30 label +:+ str_from 30 label = label).
Proof.
  intros Hsz Hnl. rewrite (gen_track_chart_item_label W label img sz Hsz).
  unfold len.
  destruct (Z.gtb_spec (Z.of_nat (String.length label)) 30) as [Hlong|Hshort];
    (eexists; split; [done |]); cbn [tile_xy tile_text]; (split; intros Hlen; [try lia | try lia]).
  - split; [done |]. split.
    { rewrite split_nl_first_line by by apply has_nl_str_to.
      rewrite split_nl_one_line by by apply has_nl_str_from. done. }
    rewrite length_str_to, length_str_from.
    split; [lia |]. split; [done |]. apply str_to_from.
  - split; [done |]. by apply split_nl_one_line.
Qed.

Lemma gen_track_chart_wraps_once_witness :
  ∃ tl, gen_track_chart_item W_up
          ("A Moon Shaped Pool (Special Edition) - Burn the Witch - Radiohead", png_a) = Ok tl
    ∧ tile_xy tl = (5, 247)
    ∧ split_nl (tile_text tl)
      = ["A Moon Shaped Pool (Special Ed"; "ition) - Burn the Witch - Radiohead"].
Proof.
  destruct (gen_track_chart_wraps_once W_up
              "A Moon Shaped Pool (Special Edition) - Burn the Witch - Radiohead"
              png_a (300, 300) eq_refl eq_refl) as (tl & Htl & _ & Hlong).
  exists tl. split; [exact Htl |].
  destruct Hlong as (Hxy & Hsplit & _); [simpl; lia |]. split; [exact Hxy | exact Hsplit].
Defined.

(** X15. When the label of an album or artist tile has more than two
    lines (a name that itself contains a line break), [charts] looks at
    the second line only: if it fits in 30 characters the whole label is
    drawn, further lines included; if it does not, the first line and the
    two halves of the second are drawn and every further line is left
    out. *)
Theorem charts_item_further_lines W line1 line2 further img sz :
  image_size W img = Some sz →
  has_nl line1 = false → has_nl line2 = false →
  let label := line1 +:+ newline +:+ line2 +:+ newline +:+ further in
  ∃ tl, charts_item W (label, img) = Ok tl
    ∧ ((String.length line2 ≤ 30)%nat → tile_xy tl = (5, 247) ∧ tile_text tl = label)
    ∧ ((30 < String.length line2)%nat →
       tile_xy tl = (5, 227)
       ∧ tile_text tl = line1 +:+ newline +:+ str_to 30 line2
                        +:+ newline +:+ str_from 30 line2).
Proof.
  intros Hsz H1 H2 label. subst label.
  unfold charts_item. cbn [fst snd]. rewrite Hsz.
  rewrite (split_nl_first_line _ _ H1), (split_nl_first_line _ _ H2).
  cbn [getitem lookup list_lookup bind result_bind]. unfold len.
  destruct (Z.gtb_spec (Z.of_nat (String.length line2)) 30) as [Hlong|Hshort];
    (eexists; split; [done |]); cbn [tile_xy tile_text]; (split; intros Hlen; [try lia | try lia]);
    done.
Qed.

Lemma charts_item_further_lines_witness :
  ∃ tl, charts_item W_up
          ("3 plays" +:+ newline +:+ "The Bends (Collectors Edition, Disc 2)"
           +:+ newline +:+ "Remastered - Radiohead", png_a) = Ok tl
    ∧ tile_xy tl = (5, 227)
    ∧ tile_text tl = "3 plays" +:+ newline +:+ "The Bends (Collectors Edition,"
                     +:+ newline +:+ " Disc 2)".
Proof.
  destruct (charts_item_further_lines W_up "3 plays" "The Bends (Collectors Edition, Disc 2)"
              "Remastered - Radiohead" png_a (300, 300) eq_refl eq_refl eq_refl)
    as (tl & Htl & _ & Hlong).
  exists tl. split; [exact Htl |]. apply Hlong. simpl. lia.
Defined.

(** ** The thumbnail upgrade *)

(** X16. An image address in which [/avatar70s/] does not occur comes out
    of the upgrade unchanged. *)
Theorem upgrade_absent src : occurs "/avatar70s/" src = false → upgrade src = src.
Proof. apply replace_from_absent. Qed.

Lemma upgrade_absent_witness :
  upgrade "https://lastfm.freetls.fastly.net/i/u/300x300/r1.jpg"
  = "https://lastfm.freetls.fastly.net/i/u/300x300/r1.jpg".
Proof. apply upgrade_absent. reflexivity. Defined.

(** ** How many requests a chart sends *)

Lemma requests_app t1 t2 : requests (t1 ++ t2) = requests t1 ++ requests t2.
Proof. apply omap_app. Qed.

Lemma within_budget_nil : within_budget [].
Proof. unfold within_budget. simpl. lia. Qed.

Lemma within_budget_app e1 e2 :
  within_budget e1 → within_budget e2 → within_budget (e1 ++ e2).
Proof.
  unfold within_budget. rewrite calls_app, requests_app, !length_app. lia.
Qed.

Lemma emits_pure {A} (P : trace → Prop) (r : result A) : P [] → emits P (lift r).
Proof. intros HP t. exists []. by rewrite app_nil_r. Qed.

Lemma emits_ret {A} (P : trace → Prop) (a : A) : P [] → emits P (ret a : M A).
Proof. intros HP t. exists []. by rewrite app_nil_r. Qed.

Lemma emits_raise {A} (P : trace → Prop) e : P [] → emits P (raise e : M A).
Proof. intros HP t. exists []. by rewrite app_nil_r. Qed.

Lemma emits_bind {A B} (P : trace → Prop) (m : M A) (f : A → M B) :
  (∀ e1 e2, P e1 → P e2 → P (e1 ++ e2)) →
  emits P m → (∀ a, emits P (f a)) → emits P (bind m f).
Proof.
  intros Happ Hm Hf t. unfold bind, M_bind.
  destruct (Hm t) as (e1 & Ht1 & HP1).
  destruct (m t) as [[a|e] t1]; simpl in *; subst t1.
  - destruct (Hf a (t ++ e1)) as (e2 & -> & HP2).
    exists (e1 ++ e2). rewrite app_assoc. split; [done |]. by apply Happ.
  - by exists e1.
Qed.

Lemma get_img_within_budget W url : emits within_budget (get_img W url).
Proof.
  intros t. destruct (get_img_events W url t) as (evs & Ht & Hcalls & _ & Hreqs).
  exists evs. split; [done |]. unfold within_budget. rewrite Hcalls.
  destruct Hreqs as [-> | ->]; simpl; lia.
Qed.

Lemma cached_img_within_budget W ref cd : emits within_budget (cached_img W ref cd).
Proof.
  unfold cached_img. destruct (cd !! ref); [apply emits_ret, within_budget_nil |].
  apply emits_bind; [apply within_budget_app | apply get_img_within_budget |].
  intros b. apply emits_ret, within_budget_nil.
Qed.

Lemma albums_loop_within_budget W albums : ∀ chart cd,
  emits within_budget (albums_loop W albums chart cd).
Proof.
  induction albums as [|album albums IH]; intros chart cd; simpl;
    [apply emits_ret, within_budget_nil |].
  apply emits_bind; [apply within_budget_app | apply emits_pure, within_budget_nil |].
  intros ref. apply emits_bind; [apply within_budget_app | apply cached_img_within_budget |].
  intros r. apply IH.
Qed.

Lemma artists_loop_within_budget W scraped iterator : ∀ i chart cd,
  emits within_budget (artists_loop W scraped i iterator chart cd).
Proof.
  induction iterator as [|artist iterator IH]; intros i chart cd; simpl;
    [apply emits_ret, within_budget_nil |].
  apply emits_bind; [apply within_budget_app | apply emits_pure, within_budget_nil |].
  intros ref. apply emits_bind; [apply within_budget_app | apply cached_img_within_budget |].
  intros r. apply IH.
Qed.

Lemma tracks_loop_within_budget W tracks width height : ∀ chart cd img,
  emits within_budget (tracks_loop W tracks chart cd img width height).
Proof.
  induction tracks as [|track tracks IH]; intros chart cd img; simpl;
    [apply emits_ret, within_budget_nil |].
  apply emits_bind; [apply within_budget_app | apply emits_pure, within_budget_nil |].
  intros ref. apply emits_bind; [apply within_budget_app | apply cached_img_within_budget |].
  intros r. apply emits_bind; [apply within_budget_app | apply emits_pure, within_budget_nil |].
  intros f. apply IH.
Qed.

(** The resolver sends at most one request per page and calls [get_img]
    never. *)
Lemma scrape_requests W username period amount t :
  ∃ evs, (scrape_artists_for_chart W username period amount t).2 = t ++ evs
    ∧ calls evs = []
    ∧ (length (requests evs) ≤ length (page_numbers amount))%nat.
Proof.
  destruct (dict_get period_format_map period) as [preset|] eqn:Hperiod.
  - rewrite (scrape_unfold W username period preset amount t Hperiod).
    pose proof (gather_fetch_text_trace W (artists_url username) preset
                  (page_numbers amount) t) as Htrace.
    exists (map (λ i, Net {| req_url := artists_url username;
                             req_params := page_params preset i |}) (page_numbers amount)).
    split; [| split].
    + unfold bind, M_bind, lift. by destruct (gather _ t) as [[l|e] t2].
    + clear Htrace. induction (page_numbers amount) as [|i l IH]; [done | exact IH].
    + clear Htrace. induction (page_numbers amount) as [|i l IH]; [done |].
      cbn [map]. change (requests (Net ?r :: ?l)) with (r :: requests l).
      cbn [length]. lia.
  - unfold scrape_artists_for_chart. rewrite Hperiod.
    exists []. rewrite app_nil_r. split; [| split; [done | simpl; lia]].
    by destruct (page_numbers amount).
Qed.

(** X17. In every run of [create_chart], returning or not, the requests
    sent are at least as many as the calls of [get_img] and at most twice
    as many, not counting the listing pages of an artist chart, of which
    there are at most ceil(width * height / 50); album and recent-track
    charts request no listing page. *)
Theorem create_chart_request_budget W data method height width period username t :
  ∃ evs, (create_chart W data method height width period username t).2 = t ++ evs
    ∧ (length (calls evs) ≤ length (requests evs))%nat
    ∧ (length (requests evs)
       ≤ (if decide (method = "user.gettopartists")
          then length (page_numbers (width * height)) else 0)
         + 2 * length (calls evs))%nat.
Proof.
  assert (Hplain : ∀ m : M file, emits within_budget m →
            ∀ n, ∃ evs, (m t).2 = t ++ evs
              ∧ (length (calls evs) ≤ length (requests evs))%nat
              ∧ (length (requests evs) ≤ n + 2 * length (calls evs))%nat).
  { intros m Hm n. destruct (Hm t) as (evs & Ht & Hb).
    exists evs. unfold within_budget in Hb. split; [done | lia]. }
  unfold create_chart.
  destruct (decide (method = "user.gettopalbums")) as [->|Halbums].
  - apply Hplain.
    apply emits_bind; [apply within_budget_app | apply emits_pure, within_budget_nil |].
    intros albums. apply emits_bind;
      [apply within_budget_app | apply albums_loop_within_budget |].
    intros chart. apply emits_pure, within_budget_nil.
  - destruct (decide (method = "user.gettopartists")) as [->|Hartists].
    + unfold bind at 1, M_bind at 1, lift at 1.
      destruct (container _ _) as [artists|e].
      2:{ exists []. rewrite app_nil_r. simpl. split; [done | lia]. }
      destruct (scrape_requests W username period (width * height) t)
        as (evs0 & Ht0 & Hcalls0 & Hreqs0).
      unfold bind at 1, M_bind at 1.
      destruct (scrape_artists_for_chart _ _ _ _ _) as [[scraped|e] t0];
        simpl in Ht0; subst t0.
      * destruct (emits_bind within_budget
                    (artists_loop W scraped 0 (slice_to artists (width * height)) [] ∅)
                    (λ chart, lift (charts W chart width height))
                    within_budget_app
                    (artists_loop_within_budget W scraped _ 0%nat [] ∅)
                    (λ chart, emits_pure within_budget _ within_budget_nil)
                    (t ++ evs0)) as (evs & Hevs & Hb).
        exists (evs0 ++ evs). rewrite app_assoc. split; [done |].
        unfold within_budget in Hb.
        rewrite calls_app, requests_app, !length_app, Hcalls0. simpl. lia.
      * exists evs0. split; [done |]. rewrite Hcalls0. simpl. lia.
    + apply Hplain. case_decide; [| apply emits_raise, within_budget_nil].
      apply emits_bind; [apply within_budget_app | apply emits_pure, within_budget_nil |].
      intros tracks. apply emits_bind;
        [apply within_budget_app | apply tracks_loop_within_budget |].
      intros [img|]; [apply emits_ret | apply emits_raise]; apply within_budget_nil.
Qed.

(** ** Artist charts and the listing pages *)

Lemma scrape_trace W username period preset amount t :
  dict_get period_format_map period = Some preset →
  (scrape_artists_for_chart W username period amount t).2
  = t ++ map Net (map (page_request username preset) (page_numbers amount)).
Proof.
  intros Hperiod.
  rewrite (scrape_unfold W username period preset amount t Hperiod).
  pose proof (gather_fetch_text_trace W (artists_url username) preset
                (page_numbers amount) t) as Htrace.
  unfold page_request. rewrite map_map.
  unfold bind, M_bind, lift. by destruct (gather _ t) as [[l|e] t2].
Qed.

(** X18. An artist chart reads the provider's artist list first: without
    it the request ends in [KeyError] and no listing page is requested.
    With it, and a period of [period_format_map], the listing pages 1 to
    ceil(width * height / 50) are requested before anything else,
    however few artists the provider reported. *)
Theorem create_chart_artists_pages W data height width period username t :
  (topartists_artist data = None →
   create_chart W data "user.gettopartists" height width period username t
   = (Raise (KeyError "topartists"), t))
  ∧ (∀ artists preset,
       topartists_artist data = Some artists →
       dict_get period_format_map period = Some preset →
       (t ++ map Net (map (page_request username preset) (page_numbers (width * height))))
         `prefix_of`
         (create_chart W data "user.gettopartists" height width period username t).2).
Proof.
  unfold create_chart. simpl. split.
  - intros Hdata. unfold bind at 1, M_bind at 1, lift at 1, container. by rewrite Hdata.
  - intros artists preset Hdata Hperiod.
    unfold bind at 1, M_bind at 1, lift at 1, container. rewrite Hdata.
    pose proof (scrape_trace W username period preset (width * height) t Hperiod) as Htrace.
    unfold bind at 1, M_bind at 1.
    destruct (scrape_artists_for_chart _ _ _ _ _) as [[scraped|e] t0]; simpl in Htrace;
      subst t0; [| done].
    assert (Hrest : extends (chart <- artists_loop W scraped 0
                                        (slice_to artists (width * height)) [] ∅ ;;
                             lift (charts W chart width height))).
    { apply extends_bind; [apply extends_artists_loop | intros; apply extends_lift]. }
    apply Hrest.
Qed.

Lemma create_chart_artists_pages_witness :
  create_chart W_up error_content "user.gettopartists" 8 8 "overall" "alice" []
  = (Raise (KeyError "topartists"), [])
  ∧ ([] ++ map Net (map (page_request "alice" "ALL") (page_numbers (8 * 8))))
      `prefix_of`
      (create_chart W_up sample_content "user.gettopartists" 8 8 "overall" "alice" []).2.
Proof.
  split.
  - apply (proj1 (create_chart_artists_pages W_up error_content 8 8 "overall" "alice" [])).
    reflexivity.
  - apply (proj2 (create_chart_artists_pages W_up sample_content 8 8 "overall" "alice" [])
             [{| artist_name := "Radiohead"; artist_playcount := VStr "20" |}] "ALL");
      reflexivity.
Defined.

(** ** One track, and items that cannot be drawn *)

(** X19. When the provider reports the recent tracks as a single object
    instead of a list, in a healthy world and for a grid of at least one
    column and one row, the chart returns with exactly one tile, named
    after that track and pasted in the top left cell. *)
Theorem create_chart_single_track W data track height width period username t :
  healthy W → 1 ≤ width → 1 ≤ height →
  recenttracks_track data = Some (TrackDict track) →
  is_Some (track_image track !! 3%nat) →
  ∃ f t' tl,
    create_chart W data "user.getrecenttracks" height width period username t = (Ok f, t')
    ∧ pastes (file_image f) = [place width 0 tl]
    ∧ tile_name tl = track_label track +:+ ".png"
    ∧ (place width 0 tl).2
      = (0, 0, (tile_size tl).1, (tile_size tl).2).
Proof.
  intros HW Hw Hh Hdata Himage.
  destruct (create_chart_returns W data "user.getrecenttracks" height width period username t
              HW Hw Hh) as (f & t' & Hrun).
  { unfold drawable. simpl. exists (TrackDict track). split; [done |]. split; [done |].
    by constructor. }
  pose proof (tiles_of_returned_chart _ _ _ _ _ _ _ _ _ _ Hrun)
    as (labels & tiles & Hlabels & Hp & Hlen & Hnames & _).
  unfold ranked_labels in Hlabels. simpl in Hlabels. rewrite Hdata in Hlabels.
  injection Hlabels as <-. simpl in *.
  assert (Z.to_nat (width * height) = S (Z.to_nat (width * height) - 1)) as Hn by nia.
  rewrite Hn in Hlen, Hnames. simpl in *.
  destruct tiles as [|tl [|tl' tiles]]; try done.
  exists f, t', tl. split; [done |]. split; [done |].
  split; [by injection Hnames |].
  unfold place. simpl. rewrite Z.mod_0_l, Z.div_0_l by lia. done.
Qed.

Lemma create_chart_single_track_witness :
  ∃ f t' tl,
    create_chart W_up one_track_content "user.getrecenttracks" 3 3 "overall" "alice" []
    = (Ok f, t')
    ∧ pastes (file_image f) = [place 3 0 tl]
    ∧ tile_name tl = "Idioteque - Radiohead.png"
    ∧ (place 3 0 tl).2 = (0, 0, (tile_size tl).1, (tile_size tl).2).
Proof.
  apply (create_chart_single_track W_up one_track_content
           {| track_name := "Idioteque"; track_artist_text := "Radiohead";
              track_image := [""; ""; ""; "http://img/kida.png"] |}
           3 3 "overall" "alice" []).
  - split; [intros t req; discriminate | intros b; by eexists].
  - lia.
  - lia.
  - reflexivity.
  - by eexists.
Defined.

(** X20. An album chart cannot return when one of the albums kept by the
    slice lacks a fourth image entry. *)
Theorem create_chart_album_without_image W data albums height width period username t :
  topalbums_album data = Some albums →
  Exists (λ album, album_image album !! 3%nat = None) (slice_to albums (width * height)) →
  ∀ f t', create_chart W data "user.gettopalbums" height width period username t
          ≠ (Ok f, t').
Proof.
  intros Hdata Hex f t'
    (labels & refs & imgs & cd' & evs0 & _ & Hrefs & _)%create_chart_ok.
  unfold references in Hrefs. simpl in Hrefs.
  destruct Hrefs as (albums' & Ha & Hall). rewrite Hdata in Ha. injection Ha as <-.
  apply Exists_exists in Hex as (album & Hin & Hnone).
  apply list_elem_of_lookup in Hin as [k Hk].
  destruct (Forall2_lookup_l _ _ _ _ _ Hall Hk) as (ref & _ & Href). congruence.
Qed.

Lemma create_chart_album_without_image_witness :
  ∃ e t',
    create_chart W_up short_image_content "user.gettopalbums" 3 3 "overall" "alice" []
    = (Raise e, t').
Proof.
  destruct (create_chart W_up short_image_content "user.gettopalbums" 3 3
              "overall" "alice" []) as [[f|e] t'] eqn:Hrun.
  - exfalso.
    eapply (create_chart_album_without_image W_up short_image_content _ 3 3
              "overall" "alice" []); [reflexivity | | exact Hrun].
    apply Exists_cons_tl, Exists_cons_hd. reflexivity.
  - by exists e, t'.
Defined.

(** ** Where the image requests go *)

Lemma only_requests_nil allowed : only_requests allowed [].
Proof. constructor. Qed.

Lemma only_requests_app allowed e1 e2 :
  only_requests allowed e1 → only_requests allowed e2 → only_requests allowed (e1 ++ e2).
Proof. unfold only_requests. rewrite requests_app. apply Forall_app_2. Qed.

Lemma get_img_only_requests W allowed url :
  url ∈ allowed → emits (only_requests allowed) (get_img W url).
Proof.
  intros Hin t. destruct (get_img_events W url t) as (evs & Ht & _ & _ & Hreqs).
  exists evs. split; [done |]. unfold only_requests.
  assert (Hfirst : get (or_placeholder url) = get NO_IMAGE_PLACEHOLDER
                   ∨ ∃ u, u ∈ allowed ∧ get (or_placeholder url) = get u).
  { unfold or_placeholder. case_decide; [by left | right; by exists url]. }
  destruct Hreqs as [-> | ->].
  - constructor; [exact Hfirst | constructor].
  - constructor; [exact Hfirst |]. constructor; [by left | constructor].
Qed.

Lemma cached_img_only_requests W allowed ref cd :
  ref ∈ allowed → emits (only_requests allowed) (cached_img W ref cd).
Proof.
  intros Hin. unfold cached_img.
  destruct (cd !! ref); [apply emits_ret, only_requests_nil |].
  apply emits_bind; [apply only_requests_app | by apply get_img_only_requests |].
  intros b. apply emits_ret, only_requests_nil.
Qed.

Lemma albums_loop_only_requests W allowed albums :
  (∀ album ref, album ∈ albums → album_image album !! 3%nat = Some ref → ref ∈ allowed) →
  ∀ chart cd, emits (only_requests allowed) (albums_loop W albums chart cd).
Proof.
  induction albums as [|album albums IH]; intros Hall chart cd; simpl;
    [apply emits_ret, only_requests_nil |].
  intros t. unfold bind at 1, M_bind at 1, lift, getitem.
  destruct (album_image album !! 3%nat) as [ref|] eqn:Href.
  - apply emits_bind; [apply only_requests_app | |].
    + apply cached_img_only_requests. eapply Hall; [by left | done].
    + intros r. apply IH. intros a u Ha. apply Hall. by right.
  - exists []. rewrite app_nil_r. split; [done | apply only_requests_nil].
Qed.

Lemma tracks_loop_only_requests W allowed tracks width height :
  (∀ track ref, track ∈ tracks → track_image track !! 3%nat = Some ref → ref ∈ allowed) →
  ∀ chart cd img, emits (only_requests allowed) (tracks_loop W tracks chart cd img width height).
Proof.
  induction tracks as [|track tracks IH]; intros Hall chart cd img; simpl;
    [apply emits_ret, only_requests_nil |].
  intros t. unfold bind at 1, M_bind at 1, lift at 1, getitem.
  destruct (track_image track !! 3%nat) as [ref|] eqn:Href.
  - apply emits_bind; [apply only_requests_app | |].
    + apply cached_img_only_requests. eapply Hall; [by left | done].
    + intros r. apply emits_bind;
        [apply only_requests_app | apply emits_pure, only_requests_nil |].
      intros f. apply IH. intros a u Ha. apply Hall. by right.
  - exists []. rewrite app_nil_r. split; [done | apply only_requests_nil].
Qed.

(** X21. In every run of an album chart or of a recent-tracks chart,
    returning or not, each request goes either to the placeholder or to
    the fourth image entry of one of the items kept by the slice, and
    carries no parameter: no other address is ever contacted. *)
Theorem create_chart_request_targets W data height width period username t :
  (∀ albums, topalbums_album data = Some albums →
     ∃ evs, (create_chart W data "user.gettopalbums" height width period username t).2
            = t ++ evs
       ∧ only_requests
           (omap (λ album, album_image album !! 3%nat) (slice_to albums (width * height)))
           evs)
  ∧ (∀ tracks, recenttracks_track data = Some tracks →
       ∃ evs, (create_chart W data "user.getrecenttracks" height width period username t).2
              = t ++ evs
         ∧ only_requests
             (omap (λ track, track_image track !! 3%nat)
                (slice_to (as_list tracks) (width * height)))
             evs).
Proof.
  unfold create_chart. simpl. split.
  - intros albums Hdata.
    unfold bind at 1, M_bind at 1, lift at 1, container. rewrite Hdata.
    apply emits_bind; [apply only_requests_app | |].
    + apply albums_loop_only_requests. intros album ref Hin Href.
      apply list_elem_of_omap. by exists album.
    + intros chart. apply emits_pure, only_requests_nil.
  - intros tracks Hdata.
    unfold bind at 1, M_bind at 1, lift at 1, container. rewrite Hdata.
    apply emits_bind; [apply only_requests_app | |].
    + apply tracks_loop_only_requests. intros track ref Hin Href.
      apply list_elem_of_omap. by exists track.
    + intros [img|]; [apply emits_ret | apply emits_raise]; apply only_requests_nil.
Qed.

Lemma create_chart_request_targets_witness :
  ∃ evs, (create_chart W_404 sample_content "user.gettopalbums" 1 2 "overall" "alice" []).2
         = [] ++ evs
    ∧ requests evs = [get "http://img/kida.png"; get NO_IMAGE_PLACEHOLDER;
                      get "http://img/amnesiac.png"; get NO_IMAGE_PLACEHOLDER]
    ∧ only_requests ["http://img/kida.png"; "http://img/amnesiac.png"] evs.
Proof.
  destruct (proj1 (create_chart_request_targets W_404 sample_content 1 2 "overall" "alice" [])
              _ eq_refl) as (evs & Hevs & Honly).
  exists evs. split; [exact Hevs |]. split; [| exact Honly].
  simpl in Hevs. rewrite <- Hevs. reflexivity.
Defined.

(** ** The tiles of a returned chart *)

Lemma ranked_labels_reported data method :
  ranked_labels data method = reported_labels data method.
Proof.
  unfold ranked_labels, reported_labels.
  destruct (topalbums_album data), (topartists_artist data),
    (recenttracks_track data) as [[tracks|track]|];
    repeat case_decide; reflexivity.
Qed.

(** X22. Whenever [create_chart] returns an image, for each of the three
    methods: the grid holds exactly min(items in the provider's answer,
    width * height) tiles; tile [k] is named after the label of item [k]
    of the answer, a single track counting as a list of one; and tile [k]
    is pasted in column [k mod width] of row [k / width], inside the
    canvas. *)
Theorem returned_chart_tiles_in_rank_order
    W data method height width period username t f t' :
  create_chart W data method height width period username t = (Ok f, t') →
  ∃ labels tiles,
    reported_labels data method = Some labels
    ∧ pastes (file_image f) = imap (place width) tiles
    ∧ length tiles = (length labels `min` Z.to_nat (width * height))%nat
    ∧ map tile_name tiles
      = map (λ label, label +:+ ".png") (take (Z.to_nat (width * height)) labels)
    ∧ ∀ k, (k < length tiles)%nat →
        0 ≤ 300 * (Z.of_nat k `mod` width) < 300 * width
        ∧ 0 ≤ 300 * (Z.of_nat k `div` width) < 300 * height.
Proof.
  intros Hrun. rewrite <- ranked_labels_reported.
  by apply (tiles_of_returned_chart W data method height width period username t f t').
Qed.

Lemma returned_chart_tiles_in_rank_order_witness :
  ∃ f t',
    create_chart W_up sample_content "user.gettopalbums" 1 2 "overall" "alice" [] = (Ok f, t')
    ∧ ∃ labels tiles,
        reported_labels sample_content "user.gettopalbums" = Some labels
        ∧ pastes (file_image f) = imap (place 2) tiles
        ∧ length tiles = (length labels `min` Z.to_nat (2 * 1))%nat
        ∧ map tile_name tiles
          = map (λ label, label +:+ ".png") (take (Z.to_nat (2 * 1)) labels)
        ∧ ∀ k, (k < length tiles)%nat →
            0 ≤ 300 * (Z.of_nat k `mod` 2) < 300 * 2
            ∧ 0 ≤ 300 * (Z.of_nat k `div` 2) < 300 * 1.
Proof.
  eexists _, _. split; [vm_compute; reflexivity |].
  eapply (returned_chart_tiles_in_rank_order W_up sample_content "user.gettopalbums"
            1 2 "overall" "alice" []).
  vm_compute. reflexivity.
Defined.

(** X23. When every request is answered and every body is an image, an
    album chart of at least one column and one row over albums that all
    have their fourth image entry returns an image, and its grid holds
    min(albums reported, width * height) tiles. *)
Theorem create_chart_albums_returns W data albums height width period username t :
  healthy W → 1 ≤ width → 1 ≤ height →
  topalbums_album data = Some albums →
  Forall (λ album, is_Some (album_image album !! 3%nat)) albums →
  ∃ f t',
    create_chart W data "user.gettopalbums" height width period username t = (Ok f, t')
    ∧ length (pastes (file_image f))
      = (length albums `min` Z.to_nat (width * height))%nat.
Proof.
  intros HW Hw Hh Hdata Himages.
  destruct (create_chart_returns W data "user.gettopalbums" height width period username t
              HW Hw Hh) as (f & t' & Hrun).
  { unfold drawable. simpl. by exists albums. }
  exists f, t'. split; [done |].
  apply tiles_of_returned_chart in Hrun as (labels & tiles & Hlabels & -> & Hlen & _).
  unfold ranked_labels in Hlabels. simpl in Hlabels. rewrite Hdata in Hlabels.
  injection Hlabels as <-. by rewrite length_imap, Hlen, length_map.
Qed.

Lemma create_chart_albums_returns_witness :
  ∃ f t',
    create_chart W_up sample_content "user.gettopalbums" 1 2 "overall" "alice" [] = (Ok f, t')
    ∧ length (pastes (file_image f))
      = (length [sample_album "Kid A" "http://img/kida.png" 12;
                 sample_album "Amnesiac" "http://img/amnesiac.png" 7;
                 sample_album "Kid A (Deluxe)" "http://img/kida.png" 1]
         `min` Z.to_nat (2 * 1))%nat.
Proof.
  apply (create_chart_albums_returns W_up sample_content _ 1 2 "overall" "alice" []).
  - split; [intros t req; discriminate | intros b; by eexists].
  - lia.
  - lia.
  - reflexivity.
  - repeat constructor; by eexists.
Defined.
